(** * VideoProcessor: sampling, caching and compositing pipeline

    A shallow embedding of [components/VideoProcessor.tsx]: the analysis
    scheduler ([startAnalysis]), the playback tick ([playbackLoop]), the
    play toggle ([togglePlay]) and the two render functions
    ([renderSegmentationOverlay], [drawMaskToContext]); then the triggers
    and the reset of the component, the two services of [services/] and the
    loading of the model in [App.tsx].

    JavaScript numbers are kept behind the interface [Number], with two
    implementations: [Binary64] (IEEE 754 double precision, what the engine
    computes) and [Exact] (rationals extended with the two infinities and
    NaN, the arithmetic the code is written for). Every function of the
    component is defined once, over the interface. *)

From Stdlib Require Import ZArith QArith Qround Qabs Qminmax Lia Lqa Bool Ascii String.
From Stdlib Require Import Sorted.
From Stdlib Require Import Floats.SpecFloat.
From stdpp Require Import base list.

Local Open Scope Z_scope.

(** ** JavaScript numbers *)

Class Number := {
  num : Type;
  (** an integer literal, or an integer-valued DOM attribute *)
  of_Z : Z -> num;
  Infinity : num;
  add : num -> num -> num;
  sub : num -> num -> num;
  mul : num -> num -> num;
  div : num -> num -> num;
  (** [a < b] and [a <= b]; [a > b] is [ltb b a], [a >= b] is [leb b a] *)
  ltb : num -> num -> bool;
  leb : num -> num -> bool;
  (** [a === b] *)
  eqb : num -> num -> bool;
  Math_abs : num -> num;
  Math_min : num -> num -> num;
  Math_floor : num -> num;
  Math_ceil : num -> num;
  Math_round : num -> num;
  (** ToBoolean: false on 0 and NaN *)
  truthy : num -> bool;
}.

(** A decimal literal [m / 10^k]: the quotient is exact in [Exact] and
    correctly rounded in [Binary64], which is how the literal is read. *)
Definition decimal {JS : Number} (m : Z) (k : nat) : num :=
  div (of_Z m) (of_Z (10 ^ Z.of_nat k)).

(** The order properties of [<] and [<=] that the nearest-frame scan relies
    on. They hold with NaN and the infinities included. *)
Class NumberOrder (N : Number) : Prop := {
  ltb_irrefl : forall a : num, ltb a a = false;
  ltb_trans : forall a b c : num, ltb a b = true -> ltb b c = true -> ltb a c = true;
  leb_ltb_trans : forall a b c : num, leb a b = true -> ltb b c = true -> ltb a c = true;
  ltb_leb : forall a b : num, ltb a b = true -> leb a b = true;
  not_ltb_Infinity : forall a b : num, ltb a Infinity = false -> ltb a b = false;
}.

(** *** Exact arithmetic *)

Module Exact.

Inductive xnum := Fin (q : Q) | PosInf | NegInf | NaN.

Definition sign_inf (neg : bool) : xnum := if neg then NegInf else PosInf.

Definition xadd (a b : xnum) : xnum :=
  match a, b with
  | NaN, _ | _, NaN => NaN
  | Fin x, Fin y => Fin (x + y)
  | PosInf, NegInf | NegInf, PosInf => NaN
  | PosInf, _ | _, PosInf => PosInf
  | NegInf, _ | _, NegInf => NegInf
  end.

Definition xopp (a : xnum) : xnum :=
  match a with
  | Fin x => Fin (- x)
  | PosInf => NegInf
  | NegInf => PosInf
  | NaN => NaN
  end.

Definition xsub (a b : xnum) : xnum := xadd a (xopp b).

(** the sign of a number as [Some true] (negative), [Some false]
    (positive), or [None] for zero *)
Definition Qsign (x : Q) : option bool :=
  match Qnum x with Z0 => None | Zpos _ => Some false | Zneg _ => Some true end.

Definition xsign (a : xnum) : option (option bool) :=
  match a with
  | Fin x => Some (Qsign x)
  | PosInf => Some (Some false)
  | NegInf => Some (Some true)
  | NaN => None
  end.

Definition xmul (a b : xnum) : xnum :=
  match a, b with
  | Fin x, Fin y => Fin (x * y)
  | _, _ =>
      match xsign a, xsign b with
      | Some (Some s), Some (Some t) => sign_inf (xorb s t)
      | _, _ => NaN
      end
  end.

Definition xdiv (a b : xnum) : xnum :=
  match a, b with
  | NaN, _ | _, NaN => NaN
  | Fin x, Fin y =>
      match Qsign y with
      | Some _ => Fin (x / y)
      | None => match Qsign x with Some s => sign_inf s | None => NaN end
      end
  | Fin _, _ => Fin 0
  | _, Fin y =>
      match xsign a, Qsign y with
      | Some (Some s), Some t => sign_inf (xorb s t)
      | Some (Some s), None => sign_inf s
      | _, _ => NaN
      end
  | _, _ => NaN
  end.

Definition xltb (a b : xnum) : bool :=
  match a, b with
  | NaN, _ | _, NaN => false
  | Fin x, Fin y => negb (Qle_bool y x)
  | _, NegInf | PosInf, _ => false
  | _, _ => true
  end.

Definition xleb (a b : xnum) : bool :=
  match a, b with
  | NaN, _ | _, NaN => false
  | Fin x, Fin y => Qle_bool x y
  | NegInf, _ | _, PosInf => true
  | _, _ => false
  end.

Definition xeqb (a b : xnum) : bool :=
  match a, b with
  | Fin x, Fin y => Qeq_bool x y
  | PosInf, PosInf | NegInf, NegInf => true
  | _, _ => false
  end.

Definition xabs (a : xnum) : xnum :=
  match a with
  | Fin x => Fin (Qabs x)
  | PosInf | NegInf => PosInf
  | NaN => NaN
  end.

Definition xmin (a b : xnum) : xnum :=
  match a, b with
  | NaN, _ | _, NaN => NaN
  | _, _ => if xltb b a then b else a
  end.

Definition xmapZ (f : Q -> Z) (a : xnum) : xnum :=
  match a with
  | Fin x => Fin (inject_Z (f x))
  | _ => a
  end.

Definition xtruthy (a : xnum) : bool :=
  match a with
  | Fin x => match Qsign x with None => false | Some _ => true end
  | NaN => false
  | _ => true
  end.

#[export] Instance number : Number := {|
  num := xnum;
  of_Z := fun z => Fin (inject_Z z);
  Infinity := PosInf;
  add := xadd; sub := xsub; mul := xmul; div := xdiv;
  ltb := xltb; leb := xleb; eqb := xeqb;
  Math_abs := xabs; Math_min := xmin;
  Math_floor := xmapZ Qfloor;
  Math_ceil := xmapZ Qceiling;
  Math_round := xmapZ (fun x => Qfloor (x + (1 # 2)));
  truthy := xtruthy;
|}.

End Exact.

(** *** IEEE 754 binary64 *)

Module Binary64.

Definition prec : Z := 53.
Definition emax : Z := 1024.

Definition f64 := spec_float.

Definition f64_of_Z (z : Z) : f64 := binary_normalize prec emax z 0 false.

(** the integer [round (x)] for a rounding of the rationals to the
    integers given on [m / 2^k], as a double; integers, infinities and
    NaN are returned as they are *)
Definition to_integral (rnd : Z -> Z -> Z) (x : f64) : f64 :=
  match x with
  | S754_finite s m e =>
      if 0 <=? e then x
      else
        let z := rnd (if s then Z.neg m else Z.pos m) (2 ^ (- e)) in
        if z =? 0 then S754_zero s else f64_of_Z z
  | _ => x
  end.

Definition f64_floor : f64 -> f64 := to_integral Z.div.
Definition f64_ceil : f64 -> f64 := to_integral (fun a b => - ((- a) / b)).
(** [Math.round]: the floor of [x + 1/2], the sum taken exactly *)
Definition f64_round : f64 -> f64 := to_integral (fun a b => (2 * a + b) / (2 * b)).

Definition f64_min (a b : f64) : f64 :=
  match a, b with
  | S754_nan, _ | _, S754_nan => S754_nan
  | S754_zero s, S754_zero t => S754_zero (s || t)
  | _, _ => if SFltb b a then b else a
  end.

Definition f64_truthy (a : f64) : bool :=
  match a with
  | S754_zero _ | S754_nan => false
  | _ => true
  end.

#[export] Instance number : Number := {|
  num := f64;
  of_Z := f64_of_Z;
  Infinity := S754_infinity false;
  add := SFadd prec emax; sub := SFsub prec emax;
  mul := SFmul prec emax; div := SFdiv prec emax;
  ltb := SFltb; leb := SFleb; eqb := SFeqb;
  Math_abs := SFabs; Math_min := f64_min;
  Math_floor := f64_floor; Math_ceil := f64_ceil; Math_round := f64_round;
  truthy := f64_truthy;
|}.

End Binary64.

(** ** Data model ([types.ts]) *)

(** A mask as the predictor returns it ([RawImage]: width, height, data):
    one byte of membership per pixel. [createImageData] rejects a zero
    size, and a mask has the size of the predictor's input, so both sides
    are positive. *)
Record RawImage := {
  width : positive;
  height : positive;
  data : list N;
}.

Section Component.

Context {JS : Number}.

Record SegmentedClass := {
  label : string;
  score : num;
  mask : option RawImage;   (* [any]: null and undefined are [None] *)
}.

Record CachedFrame := {
  timestamp : num;
  odResult : list SegmentedClass;
}.

Inductive AnalysisStatus := idle | analyzing | complete.

(** ** Configuration *)

Definition CROP_PERCENT : num := decimal 20 2.
Definition SEG_INPUT_SIZE : num := of_Z 640.
Definition ANALYSIS_INTERVAL : num := decimal 2 1.
Definition MAX_DEMO_DURATION : num := of_Z 15.

(** ** The DOM objects the component holds *)

Record HTMLVideoElement := {
  duration : num;
  currentTime : num;
  paused : bool;
  ended : bool;
  videoWidth : num;
  videoHeight : num;
  clientWidth : num;
  clientHeight : num;
}.

(** The helper canvas of the mask compositor: its size and its RGBA bitmap,
    four bytes per pixel, row after row. *)
Record HelperCanvas := {
  helper_width : N;
  helper_height : N;
  helper_bitmap : list N;
}.

(** One [drawImage] of the helper canvas onto the overlay: the source
    bitmap with its source rectangle [(0, 0, sw, sh)], and the destination
    rectangle. *)
Record DrawImage := {
  source : list N;
  sw : N;
  sh : N;
  dx : num;
  dy : num;
  dw : num;
  dh : num;
  imageSmoothingEnabled : bool;
}.

(** The overlay canvas: its size and what has been drawn on it since it was
    last cleared. *)
Record OverlayCanvas := {
  overlay_width : num;
  overlay_height : num;
  drawn : list DrawImage;
}.

(** What the component does to its surroundings, in the order it does it. *)
Inductive Effect :=
| setAnalysisStatus_ (s : AnalysisStatus)
| setIsPlaying_ (b : bool)
| setProgress_ (p : num)
| setActiveClasses_ (l : list string)
| video_pause
| video_play (resolved : bool)
| video_seek (t : num)                 (* [video.currentTime = t] *)
| capture_frame (t sy sw sh dw dh : num)
    (* [segCtx.drawImage(video, 0, sy, sw, sh, 0, 0, dw, dh)] at sampling time [t] *)
| predict_ (t : num) (resolved : bool) (* [objectDetectionService.predict] *)
| console_error
| requestAnimationFrame_
| cancelAnimationFrame_
| clearRect_
| helper_resize_ (w h : N)             (* [helper.width = w; helper.height = h] *)
| drawImage_ (d : DrawImage).

(** The state of a mounted component: the React state, the refs and the
    video element, and the trace of its effects. *)
Record World := {
  visibleVideoRef : option HTMLVideoElement;
  overlayCanvasRef : option OverlayCanvas;
  maskHelperCanvasRef : option HelperCanvas;
  cacheRef : list CachedFrame;
  requestRef : bool;                   (* a frame callback is requested *)
  isPlaying : bool;
  analysisStatus : AnalysisStatus;
  progress : num;
  activeClasses : list string;
  trace : list Effect;
}.

(** *** Assignments to the parts of the state *)

Definition emit (e : Effect) (w : World) : World :=
  {| visibleVideoRef := visibleVideoRef w; overlayCanvasRef := overlayCanvasRef w;
     maskHelperCanvasRef := maskHelperCanvasRef w; cacheRef := cacheRef w;
     requestRef := requestRef w; isPlaying := isPlaying w;
     analysisStatus := analysisStatus w; progress := progress w;
     activeClasses := activeClasses w; trace := trace w ++ [e] |}.

Definition set_video (v : HTMLVideoElement) (w : World) : World :=
  {| visibleVideoRef := Some v; overlayCanvasRef := overlayCanvasRef w;
     maskHelperCanvasRef := maskHelperCanvasRef w; cacheRef := cacheRef w;
     requestRef := requestRef w; isPlaying := isPlaying w;
     analysisStatus := analysisStatus w; progress := progress w;
     activeClasses := activeClasses w; trace := trace w |}.

Definition set_overlay (c : OverlayCanvas) (w : World) : World :=
  {| visibleVideoRef := visibleVideoRef w; overlayCanvasRef := Some c;
     maskHelperCanvasRef := maskHelperCanvasRef w; cacheRef := cacheRef w;
     requestRef := requestRef w; isPlaying := isPlaying w;
     analysisStatus := analysisStatus w; progress := progress w;
     activeClasses := activeClasses w; trace := trace w |}.

Definition set_helper (c : HelperCanvas) (w : World) : World :=
  {| visibleVideoRef := visibleVideoRef w; overlayCanvasRef := overlayCanvasRef w;
     maskHelperCanvasRef := Some c; cacheRef := cacheRef w;
     requestRef := requestRef w; isPlaying := isPlaying w;
     analysisStatus := analysisStatus w; progress := progress w;
     activeClasses := activeClasses w; trace := trace w |}.

Definition set_cache (c : list CachedFrame) (w : World) : World :=
  {| visibleVideoRef := visibleVideoRef w; overlayCanvasRef := overlayCanvasRef w;
     maskHelperCanvasRef := maskHelperCanvasRef w; cacheRef := c;
     requestRef := requestRef w; isPlaying := isPlaying w;
     analysisStatus := analysisStatus w; progress := progress w;
     activeClasses := activeClasses w; trace := trace w |}.

Definition set_request (b : bool) (w : World) : World :=
  {| visibleVideoRef := visibleVideoRef w; overlayCanvasRef := overlayCanvasRef w;
     maskHelperCanvasRef := maskHelperCanvasRef w; cacheRef := cacheRef w;
     requestRef := b; isPlaying := isPlaying w;
     analysisStatus := analysisStatus w; progress := progress w;
     activeClasses := activeClasses w; trace := trace w |}.

Definition setIsPlaying (b : bool) (w : World) : World :=
  emit (setIsPlaying_ b)
  {| visibleVideoRef := visibleVideoRef w; overlayCanvasRef := overlayCanvasRef w;
     maskHelperCanvasRef := maskHelperCanvasRef w; cacheRef := cacheRef w;
     requestRef := requestRef w; isPlaying := b;
     analysisStatus := analysisStatus w; progress := progress w;
     activeClasses := activeClasses w; trace := trace w |}.

Definition setAnalysisStatus (s : AnalysisStatus) (w : World) : World :=
  emit (setAnalysisStatus_ s)
  {| visibleVideoRef := visibleVideoRef w; overlayCanvasRef := overlayCanvasRef w;
     maskHelperCanvasRef := maskHelperCanvasRef w; cacheRef := cacheRef w;
     requestRef := requestRef w; isPlaying := isPlaying w;
     analysisStatus := s; progress := progress w;
     activeClasses := activeClasses w; trace := trace w |}.

Definition setProgress (p : num) (w : World) : World :=
  emit (setProgress_ p)
  {| visibleVideoRef := visibleVideoRef w; overlayCanvasRef := overlayCanvasRef w;
     maskHelperCanvasRef := maskHelperCanvasRef w; cacheRef := cacheRef w;
     requestRef := requestRef w; isPlaying := isPlaying w;
     analysisStatus := analysisStatus w; progress := p;
     activeClasses := activeClasses w; trace := trace w |}.

Definition setActiveClasses (l : list string) (w : World) : World :=
  emit (setActiveClasses_ l)
  {| visibleVideoRef := visibleVideoRef w; overlayCanvasRef := overlayCanvasRef w;
     maskHelperCanvasRef := maskHelperCanvasRef w; cacheRef := cacheRef w;
     requestRef := requestRef w; isPlaying := isPlaying w;
     analysisStatus := analysisStatus w; progress := progress w;
     activeClasses := l; trace := trace w |}.

(** *** The video element *)

Definition with_currentTime (t : num) (v : HTMLVideoElement) : HTMLVideoElement :=
  {| duration := duration v; currentTime := t; paused := paused v; ended := ended v;
     videoWidth := videoWidth v; videoHeight := videoHeight v;
     clientWidth := clientWidth v; clientHeight := clientHeight v |}.

Definition with_paused (b : bool) (v : HTMLVideoElement) : HTMLVideoElement :=
  {| duration := duration v; currentTime := currentTime v; paused := b; ended := ended v;
     videoWidth := videoWidth v; videoHeight := videoHeight v;
     clientWidth := clientWidth v; clientHeight := clientHeight v |}.

(** The video element is one object, shared by reference: an assignment
    acts on the element the ref holds now. *)
Definition update_video (f : HTMLVideoElement -> HTMLVideoElement) (w : World) : World :=
  match visibleVideoRef w with
  | Some v => set_video (f v) w
  | None => w
  end.

(** [video.currentTime = t] *)
Definition seek (t : num) (w : World) : World :=
  emit (video_seek t) (update_video (with_currentTime t) w).

(** [video.pause()] *)
Definition pause (w : World) : World :=
  emit video_pause (update_video (with_paused true) w).

(** [requestRef.current = requestAnimationFrame(playbackLoop)] *)
Definition requestAnimationFrame (w : World) : World :=
  emit requestAnimationFrame_ (set_request true w).

(** ** Render functions *)

(** An RGBA colour as the code writes it, [[r, g, b, a]]. *)
Definition Color : Type := Z * Z * Z * Z.

(** A store into a [Uint8ClampedArray] clamps to [0, 255]. *)
Definition clamp8 (z : Z) : N := Z.to_N (Z.min 255 z).

(** [createImageData(w, h)]: transparent black. *)
Definition createImageData (w h : positive) : list N :=
  replicate (4 * Pos.to_nat w * Pos.to_nat h) 0%N.

(** The four stores of one mask pixel; a store past the end of a typed
    array does nothing. *)
Definition put_pixel (color : Color) (i : nat) (data : list N) : list N :=
  let '(r, g, b, a) := color in
  let offset := (i * 4)%nat in
  let data := <[offset := clamp8 r]> data in
  let data := <[(offset + 1)%nat := clamp8 g]> data in
  let data := <[(offset + 2)%nat := clamp8 b]> data in
  <[(offset + 3)%nat := clamp8 a]> data.

(** [for (let i = 0; i < maskData.length; i++) if (maskData[i] > 0) ...],
    from index [i] on. *)
Fixpoint fill_mask (color : Color) (maskData : list N) (i : nat) (data : list N) : list N :=
  match maskData with
  | [] => data
  | m :: rest =>
      fill_mask color rest (S i) (if (0 <? m)%N then put_pixel color i data else data)
  end.

(** [drawMaskToContext] (lines 79-117). The target context is the one of
    the overlay canvas, its only caller's; the helper's 2d context is taken
    to be there. The scaled copy onto the overlay is recorded as a
    [DrawImage], with smoothing off. *)
Definition drawMaskToContext (mask : option RawImage) (color : Color)
    (targetX targetY targetW targetH : num) (w : World) : World :=
  match mask, maskHelperCanvasRef w with
  | Some mask, Some helper =>
      let mw := Npos (width mask) in
      let mh := Npos (height mask) in
      (* Update helper size if needed *)
      let w :=
        if negb (helper_width helper =? mw)%N || negb (helper_height helper =? mh)%N
        then emit (helper_resize_ mw mh) w
        else w in
      let imgData := createImageData (width mask) (height mask) in
      let imgData := fill_mask color (data mask) 0 imgData in
      (* putImageData(imgData, 0, 0) *)
      let w := set_helper {| helper_width := mw; helper_height := mh;
                             helper_bitmap := imgData |} w in
      let d := {| source := imgData; sw := mw; sh := mh;
                  dx := targetX; dy := targetY; dw := targetW; dh := targetH;
                  imageSmoothingEnabled := false |} in
      match overlayCanvasRef w with
      | Some target =>
          emit (drawImage_ d)
            (set_overlay {| overlay_width := overlay_width target;
                            overlay_height := overlay_height target;
                            drawn := drawn target ++ [d] |} w)
      | None => w
      end
  | _, _ => w
  end.

(** [String.prototype.toLowerCase] on the ASCII letters. *)
Definition lower (c : ascii) : ascii :=
  let n := nat_of_ascii c in
  if (65 <=? n)%nat && (n <=? 90)%nat then ascii_of_nat (n + 32) else c.

Fixpoint toLowerCase (s : string) : string :=
  match s with
  | EmptyString => EmptyString
  | String c s => String (lower c) (toLowerCase s)
  end.

(** [Array.prototype.includes] on strings. *)
Definition includes (l : list string) (x : string) : bool :=
  existsb (String.eqb x) l.

(** [Set.prototype.add]: a [Set] keeps its elements in insertion order. *)
Definition Set_add (x : string) (s : list string) : list string :=
  if includes s x then s else s ++ [x].

(** The colour mapping of one result (lines 167-177): its colour, if it
    has one, and the class it adds to [foundClasses]. *)
Definition colorMapping (item : SegmentedClass) : option (Color * string) :=
  let label := toLowerCase (label item) in
  if String.eqb label "traffic light" || String.eqb label "traffic_light" then
    Some ((255, 230, 0, 200), "TRAFFIC LIGHT"%string)
  else if includes ["car"; "truck"; "bus"; "motorcycle"; "bicycle"]%string label then
    Some ((0, 255, 100, 160), "VEHICLE"%string)
  else None.

(** The display area of the video in its container (lines 142-155), as
    [(displayedW, displayedH, offsetX, offsetY)]. *)
Definition computeDisplayRect (containerW containerH videoW videoH : num)
    : num * num * num * num :=
  let videoRatio := div videoW videoH in
  let containerRatio := div containerW containerH in
  if ltb videoRatio containerRatio then
    let displayedH := containerH in
    let displayedW := mul containerH videoRatio in
    (displayedW, displayedH, div (sub containerW displayedW) (of_Z 2), of_Z 0)
  else
    let displayedW := containerW in
    let displayedH := div containerW videoRatio in
    (displayedW, displayedH, of_Z 0, div (sub containerH displayedH) (of_Z 2)).

(** The body of [results.forEach]. *)
Definition overlay_item (offsetX displayedCropTopY displayedW displayedCropHeight : num)
    (st : list string * World) (item : SegmentedClass) : list string * World :=
  let '(foundClasses, w) := st in
  match colorMapping item with
  | Some (color, class) =>
      (Set_add class foundClasses,
       drawMaskToContext (mask item) color
         offsetX displayedCropTopY displayedW displayedCropHeight w)
  | None => (foundClasses, w)
  end.

(** [renderSegmentationOverlay] (lines 119-187). The canvas argument is
    the one the overlay ref holds, as its caller passes it; without a canvas
    (or a context) nothing happens. *)
Definition renderSegmentationOverlay (results : list SegmentedClass)
    (videoElement : HTMLVideoElement) (cropPercent : num) (w : World) : World :=
  match overlayCanvasRef w with
  | None => w
  | Some overlayCanvas =>
      let containerW := clientWidth videoElement in
      let containerH := clientHeight videoElement in
      (* Resize overlay if needed: an assignment to a side clears the canvas *)
      let overlayCanvas :=
        if negb (eqb (overlay_width overlayCanvas) containerW)
           || negb (eqb (overlay_height overlayCanvas) containerH)
        then {| overlay_width := containerW; overlay_height := containerH; drawn := [] |}
        else overlayCanvas in
      (* clearRect(0, 0, containerW, containerH), the whole canvas *)
      let w := emit clearRect_
                 (set_overlay {| overlay_width := overlay_width overlayCanvas;
                                 overlay_height := overlay_height overlayCanvas;
                                 drawn := [] |} w) in
      let videoW := videoWidth videoElement in
      let videoH := videoHeight videoElement in
      if negb (truthy videoW) || negb (truthy videoH) then w
      else
        let '(displayedW, displayedH, offsetX, offsetY) :=
          computeDisplayRect containerW containerH videoW videoH in
        let displayedCropHeight := mul displayedH (sub (of_Z 1) cropPercent) in
        let displayedCropTopY := add offsetY (mul displayedH cropPercent) in
        let '(foundClasses, w) :=
          fold_left
            (overlay_item offsetX displayedCropTopY displayedW displayedCropHeight)
            results ([], w) in
        (* Update active classes for UI *)
        setActiveClasses foundClasses w
  end.

(** ** Playback *)

(** The scan for the nearest frame (lines 272-281): one turn of the loop on
    [(closestFrame, minDiff)]. *)
Definition nearest_step (currentTime : num) (st : option CachedFrame * num)
    (frame : CachedFrame) : option CachedFrame * num :=
  let diff := Math_abs (sub (timestamp frame) currentTime) in
  if ltb diff (snd st) then (Some frame, diff) else st.

(** [closestFrame] after the loop; [cache[0]] of an empty array is
    [undefined], here [None]. *)
Definition closestFrame (cache : list CachedFrame) (currentTime : num)
    : option CachedFrame :=
  fst (fold_left (nearest_step currentTime) cache (head cache, Infinity)).

(** [playbackLoop] (lines 257-288): one tick. *)
Definition playbackLoop (w : World) : World :=
  match visibleVideoRef w with
  | None => setIsPlaying false w
  | Some video =>
      if paused video || ended video then setIsPlaying false w
      else
        let currentTime := currentTime video in
        if leb MAX_DEMO_DURATION currentTime then
          requestAnimationFrame (seek (of_Z 0) w)
        else
          let cache := cacheRef w in
          let w :=
            match closestFrame cache currentTime with
            | Some closestFrame =>
                (* an array, [closestFrame.odResult], is never falsy *)
                match overlayCanvasRef w with
                | Some _ =>
                    renderSegmentationOverlay (odResult closestFrame) video CROP_PERCENT w
                | None => w
                end
            | None => w
            end in
          requestAnimationFrame w
  end.

(** [togglePlay] reads the state variable [isPlaying] of the render that
    created it, [closure_isPlaying]; [play_resolves] tells whether the
    promise of [video.play()] is fulfilled or rejected. *)
Definition togglePlay (closure_isPlaying play_resolves : bool) (w : World) : World :=
  match visibleVideoRef w with
  | None => w
  | Some _ =>
      if closure_isPlaying then
        let w := pause w in
        let w := setIsPlaying false w in
        if requestRef w then emit cancelAnimationFrame_ w else w
      else if play_resolves then
        let w := emit (video_play true) (update_video (with_paused false) w) in
        playbackLoop (setIsPlaying true w)
      else
        emit console_error (emit (video_play false) w)
  end.

(** ** Analysis *)

Section Analysis.

(** The answer of [objectDetectionService.predict] on the frame captured at
    a sampling time; [None] when the promise is rejected. *)
Variable predict : num -> option (list SegmentedClass).

(** One turn of the [while] loop of [startAnalysis] (lines 225-248), on its
    variables [currentTime] and [frameCount]: their next values and the
    state. *)
Definition sampling_step (effectiveDuration steps : num)
    (cropY vw cropHeight segHeight : num)
    (currentTime frameCount : num) (w : World) : num * num * World :=
  let nextTime := add currentTime ANALYSIS_INTERVAL in
  let w := emit (capture_frame currentTime cropY vw cropHeight
                   SEG_INPUT_SIZE segHeight) w in
  let w :=
    if leb nextTime (add effectiveDuration (decimal 1 1))
    then seek nextTime w else w in
  let w :=
    match predict currentTime with
    | Some segRes =>
        let w := emit (predict_ currentTime true) w in
        set_cache (cacheRef w ++ [{| timestamp := currentTime;
                                     odResult := segRes |}]) w
    | None =>
        emit console_error (emit (predict_ currentTime false) w)
    end in
  let frameCount := add frameCount (of_Z 1) in
  let w := setProgress
             (Math_min (of_Z 100)
                (Math_round (mul (div frameCount steps) (of_Z 100)))) w in
  (nextTime, frameCount, w).

(** The [while] loop (line 224). [None] only when [fuel] turns of the loop
    did not end it. *)
Fixpoint sampling_loop (fuel : nat) (effectiveDuration steps : num)
    (cropY vw cropHeight segHeight : num)
    (currentTime frameCount : num) (w : World) : option World :=
  match fuel with
  | O => None
  | S fuel =>
      if leb currentTime (add effectiveDuration (decimal 1 1)) then
        let '(nextTime, frameCount, w) :=
          sampling_step effectiveDuration steps cropY vw cropHeight segHeight
            currentTime frameCount w in
        sampling_loop fuel effectiveDuration steps cropY vw cropHeight segHeight
          nextTime frameCount w
      else Some w
  end.

(** [startAnalysis] (lines 190-255), its awaits taken in order: the seek,
    the prediction and the yield of a turn are over before the next turn.
    [closure_isPlaying] is the [isPlaying] of the render whose [togglePlay]
    the function calls at its end. *)
Definition startAnalysis (fuel : nat) (closure_isPlaying play_resolves : bool)
    (w : World) : option World :=
  match visibleVideoRef w with
  | None => Some w
  | Some video =>
      if negb (truthy (duration video)) then Some w
      else
        let w := setAnalysisStatus analyzing w in
        let w := setIsPlaying false w in
        let w := pause w in
        let w := set_cache [] w in
        let effectiveDuration := Math_min (duration video) MAX_DEMO_DURATION in
        let steps := add (Math_ceil (div effectiveDuration ANALYSIS_INTERVAL)) (of_Z 1) in
        let vw := videoWidth video in
        let vh := videoHeight video in
        let cropY := Math_floor (mul vh CROP_PERCENT) in
        let cropHeight := sub vh cropY in
        let segHeight := Math_floor (mul SEG_INPUT_SIZE (div cropHeight vw)) in
        let w := seek (of_Z 0) w in
        match sampling_loop fuel effectiveDuration steps cropY vw cropHeight segHeight
                (of_Z 0) (of_Z 0) w with
        | None => None
        | Some w =>
            let w := setAnalysisStatus complete w in
            let w := seek (of_Z 0) w in
            (* Auto-play after analysis *)
            Some (togglePlay closure_isPlaying play_resolves w)
        end
  end.

End Analysis.

End Component.

Arguments SegmentedClass {JS}.
Arguments CachedFrame {JS}.
Arguments HTMLVideoElement {JS}.
Arguments World {JS}.
Arguments Effect {JS}.
Arguments OverlayCanvas {JS}.
Arguments DrawImage {JS}.

(** ** The life of the component *)

(** [ModelStatus] ([types.ts]), the prop the component reads its model's
    state from. *)
Module ModelStatus.

Inductive Status := idle | loading | ready | error.

Section ModelStatus.

Context {JS : Number}.

Record t := {
  status : Status;
  message : option string;
  progress : option num;
}.

End ModelStatus.

Arguments t {JS}.

Definition is_ready {JS : Number} (m : t) : bool :=
  match status m with ready => true | _ => false end.

End ModelStatus.

Section Lifecycle.

Context {JS : Number}.

(** A mounted component: the state of its renders and refs, and the ref
    [analysisTriggeredRef] that the two triggers of the analysis share. *)
Record Component := {
  world : World;
  analysisTriggeredRef : bool;
}.



Definition is_idle (s : AnalysisStatus) : bool :=
  match s with idle => true | _ => false end.

Section Trigger.

Variable predict : num -> option (list SegmentedClass).

(** The call [analysisTriggeredRef.current = true; startAnalysis()] of the
    two triggers. The pass is followed to its end, as [startAnalysis] is;
    the ref is set before it begins. *)
Definition trigger (fuel : nat) (closure_isPlaying play_resolves : bool)
    (c : Component) : option Component :=
  option_map (fun w => {| world := w; analysisTriggeredRef := true |})
    (startAnalysis predict fuel closure_isPlaying play_resolves (world c)).

(** [handleVideoLoaded] (lines 61-66), the handler of [loadeddata].
    [modelStatus] and [closure_analysisStatus] are the prop and the state
    variable of the render that created the handler. *)
Definition handleVideoLoaded (modelStatus : ModelStatus.t)
    (closure_analysisStatus : AnalysisStatus)
    (fuel : nat) (closure_isPlaying play_resolves : bool)
    (c : Component) : option Component :=
  if ModelStatus.is_ready modelStatus
     && negb (analysisTriggeredRef c)
     && is_idle closure_analysisStatus
  then trigger fuel closure_isPlaying play_resolves c
  else Some c.

(** The effect on a change of [modelStatus.status] (lines 69-74);
    [readyState] is the one of the video element when the effect runs. *)
Definition modelReadyEffect (modelStatus : ModelStatus.t) (readyState : N)
    (closure_analysisStatus : AnalysisStatus)
    (fuel : nat) (closure_isPlaying play_resolves : bool)
    (c : Component) : option Component :=
  if ModelStatus.is_ready modelStatus
     && bool_decide (is_Some (visibleVideoRef (world c)))
     && (1 <=? readyState)%N
     && negb (analysisTriggeredRef c)
     && is_idle closure_analysisStatus
  then trigger fuel closure_isPlaying play_resolves c
  else Some c.

End Trigger.

End Lifecycle.

Arguments Component {JS}.

(** ** The segmentation service ([services/objectDetectionService.ts]) *)

(** A promise that has settled. *)
Inductive Promise (A : Type) : Type :=
| fulfilled (value : A)
| rejected (reason : string).

Arguments fulfilled {A} value.
Arguments rejected {A} reason.

(** A call of the console. *)
Module Console.

Inductive Call := log (text : string) | warn (text : string) | error (text : string).

End Console.

(** A canvas as a source of pixels: its size and, when [getContext ('2d')]
    gives a context, the RGBA bytes that [getImageData] reads, row after
    row. *)
Record HTMLCanvasElement := {
  canvas_width : N;
  canvas_height : N;
  getContext : option (list N);
}.

(** [new RawImage (data, width, height, channels)], the image handed to
    the pipeline. *)
Record InputImage := {
  image_data : list N;
  image_width : N;
  image_height : N;
  channels : N;
}.

(** [data[i]] of a typed array as a store into a [Uint8Array] takes it: a
    read past the end is [undefined], stored as 0; a byte is stored as it
    is, a number above 255 modulo 256. *)
Definition element (data : list N) (i : nat) : N :=
  (default 0 (data !! i) mod 256)%N.

(** The loop of the conversion to RGB (lines 66-72): [n] turns from the
    pixel [i] on. *)
Fixpoint rgb_loop (n i : nat) (data rgbData : list N) : list N :=
  match n with
  | O => rgbData
  | S n =>
      let offset := (i * 4)%nat in
      let targetOffset := (i * 3)%nat in
      let rgbData := <[targetOffset := element data offset]> rgbData in
      let rgbData := <[(targetOffset + 1)%nat := element data (offset + 1)]> rgbData in
      let rgbData := <[(targetOffset + 2)%nat := element data (offset + 2)]> rgbData in
      rgb_loop n (S i) data rgbData
  end.

(** Lines 64-72: [rgbData] for the bytes [data] of [len] pixels. *)
Definition toRGB (data : list N) (len : nat) : list N :=
  rgb_loop len 0 data (replicate (len * 3) 0%N).

(** What the call [pipeline (task, modelId, options)] does before its
    promise settles: the calls of [progress_callback], and the settlement. *)
Record Loading {JS : Number} (P : Type) := {
  events : list (string * num);      (* [data.status], [data.progress] *)
  outcome : Promise P;
}.

Arguments events {JS P}.
Arguments outcome {JS P}.

Section ProgressCallback.

Context {JS : Number} {St : Type}.

(** The [progress_callback] of the two services, on the state [St] of the
    caller that [onProgress] acts on. *)
Definition progress_callback (onProgress : option (num -> St -> St))
    (st : St) (data : string * num) : St :=
  match onProgress with
  | Some onProgress =>
      if String.eqb (fst data) "progress" then onProgress (snd data) st else st
  | None => st
  end.

End ProgressCallback.

Module ObjectDetectionService.

Section Service.

Context {JS : Number}.

(** The pipeline: its answer to an image. *)
Definition Pipe : Type := InputImage -> Promise (list SegmentedClass).

(** The one instance of the service: its field [pipe]. *)
Record t := {
  pipe : option Pipe;
}.

Definition modelId : string := "Xenova/segformer-b1-finetuned-cityscapes-1024-1024".

(** [new ObjectDetectionService ()] *)
Definition new : t := {| pipe := None |}.

(** [getInstance] (lines 23-28) on the static field [instance]. *)
Definition getInstance (instance : option t) : option t * t :=
  match instance with
  | Some s => (instance, s)
  | None => (Some new, new)
  end.

(** [loadModel] (lines 30-51); [attempt] is what the call of [pipeline]
    does, if it is made. The result is the service, the state of the caller
    of [onProgress], the console and the promise. *)
Definition loadModel {St : Type} (onProgress : option (num -> St -> St))
    (attempt : Loading Pipe) (s : t) (st : St) (console : list Console.Call)
    : t * St * list Console.Call * Promise unit :=
  match pipe s with
  | Some _ => (s, st, console, fulfilled tt)
  | None =>
      let console :=
        console ++ [Console.log (String.append "Loading Segmentation model: " modelId)] in
      let st := fold_left (progress_callback onProgress) (events attempt) st in
      match outcome attempt with
      | fulfilled pipe =>
          ({| pipe := Some pipe |}, st,
           console ++ [Console.log "SegFormer Model loaded successfully."],
           fulfilled tt)
      | rejected error =>
          (s, st, console ++ [Console.error "Failed to load SegFormer model."],
           rejected error)
      end
  end.

(** [predict] (lines 53-83). The sides of a canvas are integers, which
    [Math.floor] leaves; [getImageData] throws an [IndexSizeError] on a
    rectangle with a side of 0. *)
Definition predict (s : t) (source : HTMLCanvasElement)
    : Promise (list SegmentedClass) :=
  match pipe s with
  | None => rejected "Model not loaded"
  | Some pipe =>
      match getContext source with
      | Some data =>
          let width := canvas_width source in
          let height := canvas_height source in
          if (width =? 0)%N || (height =? 0)%N then rejected "IndexSizeError"
          else
            let len := N.to_nat (width * height) in
            let rgbData := toRGB data len in
            pipe {| image_data := rgbData; image_width := width;
                    image_height := height; channels := 3 |}
      | None => fulfilled []
      end
  end.

End Service.

Arguments t {JS}.

End ObjectDetectionService.


(** ** The application ([App.tsx]) *)

Module App.

Section App.

Context {JS : Number}.

(** The state of [App], and the values [setModelStatus] was called with. *)
Record State := {
  videoSrc : option string;
  modelStatus : ModelStatus.t;
  showSampleMenu : bool;
  statuses : list ModelStatus.t;
}.

Definition setModelStatus (m : ModelStatus.t) (app : State) : State :=
  {| videoSrc := videoSrc app; modelStatus := m;
     showSampleMenu := showSampleMenu app; statuses := statuses app ++ [m] |}.

(** [initModels] (lines 14-26), on the service, the state of [App] and the
    console. *)
Definition initModels (attempt : Loading ObjectDetectionService.Pipe)
    (s : ObjectDetectionService.t) (app : State) (console : list Console.Call)
    : ObjectDetectionService.t * State * list Console.Call :=
  let app :=
    setModelStatus {| ModelStatus.status := ModelStatus.loading;
                      ModelStatus.message := None;
                      ModelStatus.progress := Some (of_Z 0) |} app in
  let '(s, app, console, loaded) :=
    ObjectDetectionService.loadModel
      (Some (fun progress =>
               setModelStatus {| ModelStatus.status := ModelStatus.loading;
                                 ModelStatus.message := None;
                                 ModelStatus.progress := Some progress |}))
      attempt s app console in
  match loaded with
  | fulfilled _ =>
      (s,
       setModelStatus {| ModelStatus.status := ModelStatus.ready;
                         ModelStatus.message := None;
                         ModelStatus.progress := None |} app,
       console)
  | rejected _ =>
      (s,
       setModelStatus {| ModelStatus.status := ModelStatus.error;
                         ModelStatus.message := Some "Initialization Failed."%string;
                         ModelStatus.progress := None |} app,
       console ++ [Console.error "Failed to load models"])
  end.

End App.

Arguments State {JS}.

End App.

(** ** The depth service (the second service of [services/]) *)

Module DepthService.

(** What [predict] may be given, and what it hands to the pipeline: the
    image made from a canvas, or the source as it is. *)
Inductive Source :=
| canvas (c : HTMLCanvasElement)
| video_or_image (id : nat).

Inductive Input :=
| rawImage (image : InputImage)
| source_itself (source : Source).

Section Service.

Context {JS : Number} {Result : Type}.

Definition Pipe : Type := Input -> Promise Result.

Record t := {
  pipe : option Pipe;
}.

Definition modelId : string := "Xenova/depth-anything-small-hf".

Definition new : t := {| pipe := None |}.

(** [loadModel] (lines 110-143 of the file): [webgpu] is what the first
    call of [pipeline] does, and [wasm] what the second one, in the [catch],
    does if it is made. *)
Definition loadModel {St : Type} (onProgress : option (num -> St -> St))
    (webgpu wasm : Loading Pipe) (s : t) (st : St) (console : list Console.Call)
    : t * St * list Console.Call * Promise unit :=
  match pipe s with
  | Some _ => (s, st, console, fulfilled tt)
  | None =>
      let console := console ++ [Console.log (String.append "Loading model: " modelId)] in
      let st := fold_left (progress_callback onProgress) (events webgpu) st in
      match outcome webgpu with
      | fulfilled pipe =>
          ({| pipe := Some pipe |}, st,
           console ++ [Console.log "Model loaded with WebGPU (Quantized)"],
           fulfilled tt)
      | rejected _ =>
          let console :=
            console ++ [Console.warn "WebGPU initialization failed or model load error, falling back to WASM/CPU."] in
          let st := fold_left (progress_callback onProgress) (events wasm) st in
          match outcome wasm with
          | fulfilled pipe =>
              ({| pipe := Some pipe |}, st,
               console ++ [Console.log "Model loaded with WASM fallback"],
               fulfilled tt)
          | rejected error => (s, st, console, rejected error)
          end
      end
  end.

(** [predict] (lines 145-183 of the file). *)
Definition predict (s : t) (source : Source) : Promise Result :=
  match pipe s with
  | None => rejected "Model not loaded"
  | Some pipe =>
      match source with
      | canvas c =>
          match getContext c with
          | Some data =>
              let width := canvas_width c in
              let height := canvas_height c in
              if (width =? 0)%N || (height =? 0)%N then rejected "IndexSizeError"
              else
                let len := N.to_nat (width * height) in
                let rgbData := toRGB data len in
                pipe (rawImage {| image_data := rgbData; image_width := width;
                                  image_height := height; channels := 3 |})
          | None => pipe (source_itself source)
          end
      | _ => pipe (source_itself source)
      end
  end.

Definition getModelId (s : t) : string := modelId.

End Service.

Arguments t {Result}.
Arguments Pipe {Result}.

End DepthService.

(** ** The timeline of the control deck *)

(** The bar [i] of the 24 bars of the timeline (lines 399-401) is lit when
    [i < progress / 4.16]. *)
Definition bar_lit {JS : Number} (progress : num) (i : Z) : bool :=
  ltb (of_Z i) (div progress (decimal 416 2)).

Definition timeline {JS : Number} (progress : num) : list bool :=
  map (fun i => bar_lit progress (Z.of_nat i)) (seq 0 24).

(** * Specifications *)

(** ** Nearest frame *)

(** The distance of a cached frame to the playback time, as the scan
    computes it. *)
Definition distance {JS : Number} (t : num) (f : CachedFrame) : num :=
  Math_abs (sub (timestamp f) t).

(** What the scan selects: nothing in an empty cache; otherwise the entry at
    some index [i] such that no entry is nearer, and every entry at most as
    far stands at [i] or after it. *)
Definition selects {JS : Number} (cache : list CachedFrame) (t : num)
    (result : option CachedFrame) : Prop :=
  match cache with
  | [] => result = None
  | _ :: _ =>
      exists (i : nat) (r : CachedFrame),
        result = Some r /\ cache !! i = Some r
        /\ (forall (j : nat) (e : CachedFrame), cache !! j = Some e ->
              ltb (distance t e) (distance t r) = false)
        /\ (forall (j : nat) (e : CachedFrame), cache !! j = Some e ->
              leb (distance t e) (distance t r) = true -> (i <= j)%nat)
  end.

(** The state of the scan after the frames of [seen]: no frame seen is
    below [minDiff]; and either nothing was selected yet, or the selected
    frame is one of [seen], at distance [minDiff], with every frame before
    it strictly farther. *)
Definition scan_invariant {JS : Number} (t : num) (first : option CachedFrame)
    (seen : list CachedFrame) (st : option CachedFrame * num) : Prop :=
  (forall (j : nat) (e : CachedFrame), seen !! j = Some e ->
     ltb (distance t e) (snd st) = false)
  /\ ((fst st = first /\ snd st = Infinity)
      \/ exists (i : nat) (r : CachedFrame),
           fst st = Some r /\ seen !! i = Some r /\ snd st = distance t r
           /\ forall (j : nat) (e : CachedFrame), seen !! j = Some e ->
                leb (distance t e) (distance t r) = true -> (i <= j)%nat).

(** A rational as a number of exact arithmetic. *)
Definition fin (q : Q) : @num Exact.number := Exact.Fin q.

(** A cached frame with a finite timestamp, in exact arithmetic: the
    timestamp and the results. *)
Definition exact_entry : Type := Q * list (@SegmentedClass Exact.number).

Definition exact_frame (entry : exact_entry) : @CachedFrame Exact.number :=
  {| timestamp := fin (fst entry); odResult := snd entry |}.

(** A video that is playing. *)
Definition playing {JS : Number} (w : World) (video : HTMLVideoElement) : Prop :=
  visibleVideoRef w = Some video /\ paused video = false /\ ended video = false.

(** ** Rendering *)

(** An effect on the overlay canvas. *)
Definition is_render {JS : Number} (e : Effect) : bool :=
  match e with
  | clearRect_ | drawImage_ _ => true
  | _ => false
  end.

(** The RGBA pixel [i] of a bitmap. *)
Definition pixel (bitmap : list N) (i : nat) : option (N * N * N * N) :=
  match bitmap !! (i * 4)%nat, bitmap !! (i * 4 + 1)%nat,
        bitmap !! (i * 4 + 2)%nat, bitmap !! (i * 4 + 3)%nat with
  | Some r, Some g, Some b, Some a => Some (r, g, b, a)
  | _, _, _, _ => None
  end.

(** A colour as it is stored in a bitmap. *)
Definition stored (color : Color) : N * N * N * N :=
  let '(r, g, b, a) := color in (clamp8 r, clamp8 g, clamp8 b, clamp8 a).

(** The membership of pixel [i] in a mask: its byte is there and is not 0. *)
Definition member (maskData : list N) (i : nat) : bool :=
  match maskData !! i with
  | Some m => negb (m =? 0)%N
  | None => false
  end.

(** Two labels that differ in the case of their letters at most. *)
Definition eq_ignoring_case (a b : string) : Prop := toLowerCase a = toLowerCase b.

(** The class a result adds to [foundClasses]. *)
Definition add_class {JS : Number} (found : list string) (item : SegmentedClass)
    : list string :=
  match colorMapping item with
  | Some (_, class) => Set_add class found
  | None => found
  end.

(** Whether [helper.width !== mask.width || helper.height !== mask.height]. *)
Definition resizes (helper : HelperCanvas) (mask : RawImage) : bool :=
  negb (helper_width helper =? Npos (width mask))%N
  || negb (helper_height helper =? Npos (height mask))%N.

(** ** Analysis *)

(** The sampling time of turn [k] of the loop: [k] times the interval
    added to 0, as the loop adds it. *)
Fixpoint sample_time {JS : Number} (k : nat) : num :=
  match k with
  | O => of_Z 0
  | S k => add (sample_time k) ANALYSIS_INTERVAL
  end.

(** [frameCount] after [k] turns. *)
Fixpoint frame_count {JS : Number} (k : nat) : num :=
  match k with
  | O => of_Z 0
  | S k => add (frame_count k) (of_Z 1)
  end.

(** The progress the loop reports at a frame count. *)
Definition progress_at {JS : Number} (steps frameCount : num) : num :=
  Math_min (of_Z 100) (Math_round (mul (div frameCount steps) (of_Z 100))).

(** The cache entry of a sampling time, when the prediction succeeds. *)
Definition frame_at {JS : Number} (predict : num -> option (list SegmentedClass))
    (t : num) : option CachedFrame :=
  option_map (fun segRes => {| timestamp := t; odResult := segRes |}) (predict t).

(** The sampling times of a trace, and the progress it reports. *)
Definition captures {JS : Number} (effects : list Effect) : list num :=
  omap (fun e => match e with capture_frame t _ _ _ _ _ => Some t | _ => None end)
       effects.

Definition progress_reports {JS : Number} (effects : list Effect) : list num :=
  omap (fun e => match e with setProgress_ p => Some p | _ => None end) effects.

(** [n] turns of the loop from turn [k] on. *)
Fixpoint sampling_steps {JS : Number} (predict : num -> option (list SegmentedClass))
    (n k : nat) (effectiveDuration steps cropY vw cropHeight segHeight : num)
    (w : World) : World :=
  match n with
  | O => w
  | S n =>
      sampling_steps predict n (S k) effectiveDuration steps cropY vw cropHeight segHeight
        (snd (sampling_step predict effectiveDuration steps cropY vw cropHeight segHeight
                (sample_time k) (frame_count k) w))
  end.

(** The effects of the turn of the loop at sampling time [t], the frame
    count being [c] before it. *)
Definition step_effects {JS : Number} (predict : num -> option (list SegmentedClass))
    (effectiveDuration steps cropY vw cropHeight segHeight : num) (t c : num)
    : list Effect :=
  [capture_frame t cropY vw cropHeight SEG_INPUT_SIZE segHeight]
  ++ (if leb (add t ANALYSIS_INTERVAL) (add effectiveDuration (decimal 1 1))
      then [video_seek (add t ANALYSIS_INTERVAL)] else [])
  ++ match predict t with
     | Some _ => [predict_ t true]
     | None => [predict_ t false; console_error]
     end
  ++ [setProgress_ (progress_at steps (add c (of_Z 1)))].

(** The state in which [startAnalysis] enters its loop (lines 194-215). *)
Definition analysis_start {JS : Number} (w : World) : World :=
  seek (of_Z 0)
    (set_cache [] (pause (setIsPlaying false (setAnalysisStatus analyzing w)))).

(** The end of [startAnalysis] (lines 251-254). *)
Definition analysis_end {JS : Number} (closure_isPlaying play_resolves : bool)
    (w : World) : World :=
  togglePlay closure_isPlaying play_resolves
    (seek (of_Z 0) (setAnalysisStatus complete w)).

(** *** In exact arithmetic *)

(** A number of exact arithmetic that is the rational [q]. *)
Definition is_value (x : @num Exact.number) (q : Q) : Prop :=
  match x with
  | Exact.Fin q' => q' == q
  | _ => False
  end.

(** A natural number as a rational. *)
Definition Qnat (k : nat) : Q := inject_Z (Z.of_nat k).

(** [effectiveDuration] for a video of duration [d], capped at 15 s. *)
Definition effective (d : Q) : Q := Qmin d 15.

(** The number of the sampling times [k / 5] that are at most
    [e + 1/10]: one more than the floor of [5 e + 1/2]. *)
Definition turns (e : Q) : nat := S (Z.to_nat (Qfloor (5 * e + (1 # 2)))).

(** [steps], the total the progress is measured against:
    [ceil (e / interval) + 1]. *)
Definition total_steps (e : Q) : Z := Qceiling (e / (1 # 5)) + 1.

(** The effects that only the sampling loop has. *)
Definition is_sampling {JS : Number} (e : Effect) : bool :=
  match e with
  | capture_frame _ _ _ _ _ _ | predict_ _ _ | setProgress_ _ => true
  | _ => false
  end.

(** What rendering leaves as it is: the video, the cache, the frame
    request and the state of the session. *)
Definition session {JS : Number} (w : World)
    : option HTMLVideoElement * list CachedFrame * bool * bool * AnalysisStatus * num :=
  (visibleVideoRef w, cacheRef w, requestRef w, isPlaying w, analysisStatus w,
   progress w).

(** [w'] comes from [w] by effects that are not those of the sampling loop. *)
Definition extends {JS : Number} (w w' : World) : Prop :=
  exists effects : list Effect,
    trace w' = trace w ++ effects
    /\ forallb (fun e => negb (is_sampling e)) effects = true.

(** What the sampling loop leaves as it is: whether the video is paused or
    has ended, the frame request, and the state variables other than the
    progress. *)
Definition standing {JS : Number} (w : World)
    : option (bool * bool) * bool * bool * AnalysisStatus :=
  (option_map (fun v => (paused v, ended v)) (visibleVideoRef w),
   requestRef w, isPlaying w, analysisStatus w).





(** ** Examples *)

(** A 1280x720 video in a 960x540 element, at a playback time. *)
Definition example_video {JS : Number} (duration currentTime : num) (paused : bool)
    : HTMLVideoElement :=
  {| duration := duration; currentTime := currentTime;
     paused := paused; ended := false;
     videoWidth := of_Z 1280; videoHeight := of_Z 720;
     clientWidth := of_Z 960; clientHeight := of_Z 540 |}.

(** A component as it is mounted, with its video element. *)
Definition example_world {JS : Number} (video : HTMLVideoElement) : World :=
  {| visibleVideoRef := Some video;
     overlayCanvasRef :=
       Some {| overlay_width := of_Z 300; overlay_height := of_Z 150; drawn := [] |};
     maskHelperCanvasRef :=
       Some {| helper_width := 640; helper_height := 640; helper_bitmap := [] |};
     cacheRef := []; requestRef := false; isPlaying := false;
     analysisStatus := idle; progress := of_Z 0; activeClasses := [];
     trace := [] |}.

(** A mask of two pixels, the second one a member. *)
Definition example_mask : RawImage :=
  {| width := 2; height := 1; data := [0; 255]%N |}.

(** A result with a label and the example mask. *)
Definition example_item {JS : Number} (label : string) : SegmentedClass :=
  {| label := label; score := of_Z 1; mask := Some example_mask |}.


(** ** The service and the application *)

(** The pipeline that a call of [pipeline] gives, when it gives one. *)
Definition loaded {JS : Number} {P : Type} (attempt : Loading P) : option P :=
  match outcome attempt with
  | fulfilled pipe => Some pipe
  | rejected _ => None
  end.

(** The progress of the events of the status 'progress', in their order. *)
Definition progress_values {JS : Number} (events : list (string * num)) : list num :=
  omap (fun data => if String.eqb (fst data) "progress" then Some (snd data) else None)
       events.

(** Calls of [loadModel] one after another, each settled before the next
    is made, each with its callback and with what [pipeline] would do. *)
Definition loadModels {JS : Number} {St : Type}
    (calls : list (option (num -> St -> St) * Loading ObjectDetectionService.Pipe))
    (x : ObjectDetectionService.t * St * list Console.Call)
    : ObjectDetectionService.t * St * list Console.Call :=
  fold_left
    (fun x call =>
       fst (ObjectDetectionService.loadModel (fst call) (snd call)
              (fst (fst x)) (snd (fst x)) (snd x)))
    calls x.

(** The status [{ status: 'loading', progress }]. *)
Definition loading_at {JS : Number} (progress : num) : ModelStatus.t :=
  {| ModelStatus.status := ModelStatus.loading; ModelStatus.message := None;
     ModelStatus.progress := Some progress |}.

(** A canvas with other bytes. *)
Definition with_data (data : list N) (source : HTMLCanvasElement) : HTMLCanvasElement :=
  {| canvas_width := canvas_width source; canvas_height := canvas_height source;
     getContext := Some data |}.

(** ** The triggers of the analysis *)

(** An event that may start the analysis: [loadeddata] on the video, or a
    change of the status of the model, each with what the render that set
    its handler up had. *)
Inductive TriggerEvent {JS : Number} :=
| loadeddata (modelStatus : ModelStatus.t) (closure_analysisStatus : AnalysisStatus)
    (closure_isPlaying play_resolves : bool)
| model_status_changed (modelStatus : ModelStatus.t) (readyState : N)
    (closure_analysisStatus : AnalysisStatus) (closure_isPlaying play_resolves : bool).

Definition trigger_event {JS : Number} (predict : num -> option (list SegmentedClass))
    (fuel : nat) (e : TriggerEvent) (c : Component) : option Component :=
  match e with
  | loadeddata modelStatus closure_analysisStatus closure_isPlaying play_resolves =>
      handleVideoLoaded predict modelStatus closure_analysisStatus fuel
        closure_isPlaying play_resolves c
  | model_status_changed modelStatus readyState closure_analysisStatus
      closure_isPlaying play_resolves =>
      modelReadyEffect predict modelStatus readyState closure_analysisStatus fuel
        closure_isPlaying play_resolves c
  end.

(** Events one after another, each on what the one before it left. *)
Fixpoint trigger_events {JS : Number} (predict : num -> option (list SegmentedClass))
    (fuel : nat) (events : list TriggerEvent) (c : Component) : option Component :=
  match events with
  | [] => Some c
  | e :: events =>
      match trigger_event predict fuel e c with
      | Some c => trigger_events predict fuel events c
      | None => None
      end
  end.

(** The status [{ status: 'ready' }]. *)
Definition model_ready {JS : Number} : ModelStatus.t :=
  {| ModelStatus.status := ModelStatus.ready; ModelStatus.message := None;
     ModelStatus.progress := None |}.

(** ** The frames a pass captures *)







(** ** Playback *)

(** What drives the playback: a frame callback, which runs
    [playbackLoop], or the play button, which runs the [togglePlay] of a
    render. *)
Inductive PlaybackEvent := frame_callback | play_button (closure_isPlaying play_resolves : bool).

Definition playback_event {JS : Number} (w : World) (e : PlaybackEvent) : World :=
  match e with
  | frame_callback => playbackLoop w
  | play_button closure_isPlaying play_resolves =>
      togglePlay closure_isPlaying play_resolves w
  end.

(** The image a render draws for a result: the stencil of its mask in the
    colour of its class, onto the rectangle [(x, y, w, h)]; none for a
    result with no colour or no mask. *)
Definition mask_draw {JS : Number} (x y w h : num) (item : SegmentedClass)
    : option DrawImage :=
  match colorMapping item, mask item with
  | Some (color, _), Some mask =>
      Some {| source := fill_mask color (data mask) 0
                          (createImageData (width mask) (height mask));
              sw := Npos (width mask); sh := Npos (height mask);
              dx := x; dy := y; dw := w; dh := h;
              imageSmoothingEnabled := false |}
  | _, _ => None
  end.

(** The class of a result, if its label has one. *)
Definition class_of {JS : Number} (item : SegmentedClass) : option string :=
  option_map snd (colorMapping item).

(** * Properties *)

(** ** The order of the two implementations *)

Module Binary64Order.
Import Binary64.

Ltac compare_cases :=
  repeat match goal with
    | |- context [Z.compare ?a ?b] => destruct (Z.compare_spec a b); subst
    | H : context [Z.compare ?a ?b] |- _ => destruct (Z.compare_spec a b); subst
    | |- context [Pos.compare_cont Eq ?a ?b] =>
        change (Pos.compare_cont Eq a b) with (Pos.compare a b);
        destruct (Pos.compare_spec a b); subst
    | H : context [Pos.compare_cont Eq ?a ?b] |- _ =>
        change (Pos.compare_cont Eq a b) with (Pos.compare a b) in H;
        destruct (Pos.compare_spec a b); subst
    end;
  cbn in *; try congruence; try lia.

Lemma SFltb_irrefl (a : f64) : SFltb a a = false.
Proof.
  unfold SFltb, SFcompare.
  destruct a as [s|s| |s m e]; try destruct s; try reflexivity;
    rewrite Z.compare_refl;
    change (Pos.compare_cont Eq m m) with (Pos.compare m m);
    rewrite Pos.compare_refl; reflexivity.
Qed.

Lemma SFltb_trans (a b c : f64) :
  SFltb a b = true -> SFltb b c = true -> SFltb a c = true.
Proof.
  unfold SFltb, SFcompare.
  destruct a as [s1|s1| |s1 m1 e1], b as [s2|s2| |s2 m2 e2],
           c as [s3|s3| |s3 m3 e3];
    try destruct s1; try destruct s2; try destruct s3;
    cbn; try congruence; intros H1 H2; compare_cases.
Qed.

Lemma SFleb_ltb_trans (a b c : f64) :
  SFleb a b = true -> SFltb b c = true -> SFltb a c = true.
Proof.
  unfold SFleb, SFltb, SFcompare.
  destruct a as [s1|s1| |s1 m1 e1], b as [s2|s2| |s2 m2 e2],
           c as [s3|s3| |s3 m3 e3];
    try destruct s1; try destruct s2; try destruct s3;
    cbn; try congruence; intros H1 H2; compare_cases.
Qed.

Lemma SFltb_leb (a b : f64) : SFltb a b = true -> SFleb a b = true.
Proof.
  unfold SFleb, SFltb. destruct (SFcompare a b) as [[]|]; congruence.
Qed.

Lemma SFltb_infinity (a b : f64) :
  SFltb a (S754_infinity false) = false -> SFltb a b = false.
Proof.
  unfold SFltb, SFcompare.
  destruct a as [s1|s1| |s1 m1 e1]; try destruct s1; cbn; try congruence;
    destruct b as [s2|s2| |s2 m2 e2]; try destruct s2; reflexivity.
Qed.

#[export] Instance order : NumberOrder number.
Proof.
  split.
  - exact SFltb_irrefl.
  - exact SFltb_trans.
  - exact SFleb_ltb_trans.
  - exact SFltb_leb.
  - exact SFltb_infinity.
Qed.

End Binary64Order.

Module ExactOrder.
Import Exact.

Lemma xltb_Fin (x y : Q) : xltb (Fin x) (Fin y) = true <-> (x < y)%Q.
Proof.
  cbn. rewrite negb_true_iff, <- not_true_iff_false, Qle_bool_iff.
  split; [apply Qnot_le_lt | apply Qlt_not_le].
Qed.

Lemma xleb_Fin (x y : Q) : xleb (Fin x) (Fin y) = true <-> (x <= y)%Q.
Proof. cbn. apply Qle_bool_iff. Qed.

Lemma xltb_Fin_false (x y : Q) : xltb (Fin x) (Fin y) = false <-> (y <= x)%Q.
Proof.
  rewrite <- not_true_iff_false, xltb_Fin.
  split; [apply Qnot_lt_le | apply Qle_not_lt].
Qed.

Lemma xleb_Fin_false (x y : Q) : xleb (Fin x) (Fin y) = false <-> (y < x)%Q.
Proof.
  rewrite <- not_true_iff_false, xleb_Fin.
  split; [apply Qnot_le_lt | apply Qlt_not_le].
Qed.

#[export] Instance order : NumberOrder number.
Proof.
  split.
  - intros [x| | |]; try reflexivity. apply xltb_Fin_false. lra.
  - intros [x| | |] [y| | |] [z| | |]; try (cbn; congruence).
    rewrite !xltb_Fin. lra.
  - intros [x| | |] [y| | |] [z| | |]; try (cbn; congruence).
    change (@leb number) with xleb. change (@ltb number) with xltb.
    rewrite xleb_Fin, !xltb_Fin. lra.
  - intros [x| | |] [y| | |]; try (cbn; congruence).
    change (@leb number) with xleb. change (@ltb number) with xltb.
    rewrite xleb_Fin, !xltb_Fin. lra.
  - intros [x| | |] [y| | |]; cbn; congruence.
Qed.

End ExactOrder.

(** ** The nearest-frame scan *)

Section Nearest.

Context {JS : Number} {order : NumberOrder JS}.

Lemma scan_invariant_step (t : num) (first : option CachedFrame)
    (seen : list CachedFrame) (st : option CachedFrame * num) (frame : CachedFrame) :
  scan_invariant t first seen st ->
  scan_invariant t first (seen ++ [frame]) (nearest_step t st frame).
Proof.
  intros [Hmin Hsel]. unfold nearest_step.
  fold (distance t frame).
  destruct (ltb (distance t frame) (snd st)) eqn:Hlt.
  - (* the frame is selected *)
    split; cbn [fst snd].
    + intros j e Hj. apply lookup_app_Some in Hj as [Hj | [_ Hj]].
      * destruct (ltb (distance t e) (distance t frame)) eqn:He; [|reflexivity].
        rewrite <- (Hmin j e Hj). symmetry. eapply ltb_trans; eassumption.
      * apply list_lookup_singleton_Some in Hj as [_ <-]. apply ltb_irrefl.
    + right. exists (length seen), frame. repeat split.
      * rewrite lookup_app_r by lia. now rewrite Nat.sub_diag.
      * intros j e Hj Hle.
        apply lookup_app_Some in Hj as [Hj | [Hge _]]; [|lia].
        pose proof (Hmin j e Hj) as Hm.
        rewrite (leb_ltb_trans _ _ _ Hle Hlt) in Hm. discriminate.
  - (* the state is kept *)
    split.
    + intros j e Hj. apply lookup_app_Some in Hj as [Hj | [_ Hj]].
      * now apply (Hmin j).
      * now apply list_lookup_singleton_Some in Hj as [_ <-].
    + destruct Hsel as [Hsel | (i & r & Hr & Hi & Hd & Hfirst)]; [now left|].
      right. exists i, r. repeat split; try assumption.
      * apply lookup_app_Some. now left.
      * intros j e Hj Hle.
        apply lookup_app_Some in Hj as [Hj | [Hge Hj]]; [now apply (Hfirst j e)|].
        apply lookup_lt_Some in Hi. lia.
Qed.

Lemma scan_invariant_fold (t : num) (first : option CachedFrame)
    (rest seen : list CachedFrame) (st : option CachedFrame * num) :
  scan_invariant t first seen st ->
  scan_invariant t first (seen ++ rest) (fold_left (nearest_step t) rest st).
Proof.
  revert seen st. induction rest as [|frame rest IH]; intros seen st Hinv; cbn.
  - now rewrite app_nil_r.
  - replace (seen ++ frame :: rest) with ((seen ++ [frame]) ++ rest)
      by now rewrite <- app_assoc.
    apply IH. now apply scan_invariant_step.
Qed.

Lemma closestFrame_selects (cache : list CachedFrame) (t : num) :
  selects cache t (closestFrame cache t).
Proof.
  destruct cache as [|f cache]; [reflexivity|].
  unfold selects, closestFrame.
  pose proof (scan_invariant_fold t (Some f) (f :: cache) [] (Some f, Infinity)) as H.
  destruct H as [Hmin Hsel].
  { split; [intros j e Hj; now rewrite lookup_nil in Hj | now left]. }
  rewrite app_nil_l in Hmin, Hsel. cbn [head].
  destruct (fold_left (nearest_step t) (f :: cache) (Some f, Infinity)) as [c m].
  cbn [fst snd] in *.
  destruct Hsel as [[-> ->] | (i & r & -> & Hi & -> & Hfirst)].
  - exists 0%nat, f. repeat split.
    + intros j e Hj. eapply not_ltb_Infinity, Hmin, Hj.
    + intros; lia.
  - exists i, r. repeat split; assumption.
Qed.

End Nearest.

Lemma distance_exact (t : Q) (entry : exact_entry) :
  distance (fin t) (exact_frame entry) = fin (Qabs (fst entry + - t)).
Proof. reflexivity. Qed.

Lemma closestFrame_exact (l : list exact_entry) (t : Q) :
  l <> [] ->
  exists (i : nat) (entry : exact_entry),
    l !! i = Some entry
    /\ closestFrame (map exact_frame l) (fin t) = Some (exact_frame entry)
    /\ forall (j : nat) (other : exact_entry), l !! j = Some other ->
         (Qabs (fst entry - t) <= Qabs (fst other - t))%Q
         /\ ((Qabs (fst other - t) <= Qabs (fst entry - t))%Q -> (i <= j)%nat).
Proof.
  intros Hne.
  pose proof (closestFrame_selects (order := ExactOrder.order)
                (map exact_frame l) (fin t)) as H.
  destruct l as [|e0 l]; [congruence|]. cbn [map selects] in H.
  destruct H as (i & r & Hres & Hi & Hmin & Hfirst).
  change (exact_frame e0 :: map exact_frame l) with (map exact_frame (e0 :: l)) in *.
  rewrite list_lookup_fmap in Hi.
  destruct ((e0 :: l) !! i) as [entry|] eqn:Hentry; [|discriminate].
  cbn in Hi. injection Hi as <-.
  exists i, entry. repeat split; try assumption.
  - specialize (Hmin j (exact_frame other)).
    rewrite list_lookup_fmap, H in Hmin. specialize (Hmin eq_refl).
    rewrite !distance_exact in Hmin. now apply ExactOrder.xltb_Fin_false in Hmin.
  - intros Hle. apply (Hfirst j (exact_frame other)).
    + now rewrite list_lookup_fmap, H.
    + rewrite !distance_exact. now apply ExactOrder.xleb_Fin.
Qed.

(** C1. On a playback tick the scan over the cache selects nothing when the
    cache is empty, and nothing is rendered; in a cache that is not empty
    it selects an entry that no entry is nearer to the playback time than,
    the first one met among those equally near. This holds in binary64
    arithmetic and in exact arithmetic, where the selected entry minimises
    [|timestamp - t|]. The tick renders the results of the selected entry.
    With entries at 0 and 1.0 only, the time 0.6 selects the entry at 1.0. *)
Theorem nearest_frame_lookup :
  (forall (cache : list (@CachedFrame Binary64.number)) (t : @num Binary64.number),
     selects cache t (closestFrame cache t))
  /\ (forall (cache : list (@CachedFrame Exact.number)) (t : @num Exact.number),
       selects cache t (closestFrame cache t))
  /\ (forall (l : list exact_entry) (t : Q),
       l <> [] ->
       exists (i : nat) (entry : exact_entry),
         l !! i = Some entry
         /\ closestFrame (map exact_frame l) (fin t) = Some (exact_frame entry)
         /\ forall (j : nat) (other : exact_entry), l !! j = Some other ->
              (Qabs (fst entry - t) <= Qabs (fst other - t))%Q
              /\ ((Qabs (fst other - t) <= Qabs (fst entry - t))%Q -> (i <= j)%nat))
  /\ (forall (JS : Number) (w : World) (video : HTMLVideoElement),
       playing w video ->
       leb MAX_DEMO_DURATION (currentTime video) = false ->
       (cacheRef w = [] -> playbackLoop w = requestAnimationFrame w)
       /\ (forall (frame : CachedFrame) (canvas : OverlayCanvas),
             closestFrame (cacheRef w) (currentTime video) = Some frame ->
             overlayCanvasRef w = Some canvas ->
             playbackLoop w =
               requestAnimationFrame
                 (renderSegmentationOverlay (odResult frame) video CROP_PERCENT w)))
  /\ (forall (r0 r1 : list (@SegmentedClass Binary64.number)),
       closestFrame [ {| timestamp := of_Z 0; odResult := r0 |};
                      {| timestamp := of_Z 1; odResult := r1 |} ] (decimal 6 1)
       = Some {| timestamp := of_Z 1; odResult := r1 |})
  /\ (forall (r0 r1 : list (@SegmentedClass Exact.number)),
       closestFrame [ {| timestamp := of_Z 0; odResult := r0 |};
                      {| timestamp := of_Z 1; odResult := r1 |} ] (decimal 6 1)
       = Some {| timestamp := of_Z 1; odResult := r1 |}).
Proof.
  split; [|split; [|split; [|split; [|split]]]].
  - intros. apply (closestFrame_selects (order := Binary64Order.order)).
  - intros. apply (closestFrame_selects (order := ExactOrder.order)).
  - exact closestFrame_exact.
  - intros JS w video (Hv & Hp & He) Hcap. unfold playbackLoop.
    rewrite Hv, Hp, He, Hcap. cbn [orb]. split.
    + intros ->. reflexivity.
    + intros frame canvas -> ->. reflexivity.
  - intros. reflexivity.
  - intros. reflexivity.
Qed.

(** The nearest of the entries at 0 and 1 to the time 0.6, in exact
    arithmetic: an entry of the cache, at least as near as the one at 0. *)
Lemma nearest_frame_lookup_witness :
  exists (i : nat) (entry : exact_entry),
    [(0%Q, []); (1%Q, [])] !! i = Some entry
    /\ closestFrame (map exact_frame [(0%Q, []); (1%Q, [])]) (fin (6 # 10))
       = Some (exact_frame entry)
    /\ (Qabs (fst entry - (6 # 10)) <= Qabs (0 - (6 # 10)))%Q.
Proof.
  destruct (proj1 (proj2 (proj2 nearest_frame_lookup))
              [(0%Q, []); (1%Q, [])] (6 # 10)%Q)
    as (i & entry & Hi & Hclosest & Hmin); [discriminate|].
  exists i, entry. split; [exact Hi|]. split; [exact Hclosest|].
  apply (Hmin 0%nat (0%Q, [])). reflexivity.
Defined.

(** ** The playback tick at the duration cap *)

(** C8. On a tick of a playing video: at a playback time that is at least
    the cap, the tick seeks to 0 and requests the next frame, and does
    nothing else, whatever the cache holds; below the cap it looks the
    nearest frame up and renders; so a tick that renders is below the cap.
    At 14.95 s the tick goes on, at 15 s it seeks to 0. *)
Theorem playback_cap_loop :
  (forall (JS : Number) (w : World) (video : HTMLVideoElement),
     playing w video ->
     (leb MAX_DEMO_DURATION (currentTime video) = true ->
        playbackLoop w = requestAnimationFrame (seek (of_Z 0) w)
        /\ trace (playbackLoop w) = trace w ++ [video_seek (of_Z 0); requestAnimationFrame_]
        /\ overlayCanvasRef (playbackLoop w) = overlayCanvasRef w
        /\ activeClasses (playbackLoop w) = activeClasses w
        /\ option_map currentTime (visibleVideoRef (playbackLoop w)) = Some (of_Z 0)
        /\ forall cache : list CachedFrame,
             playbackLoop (set_cache cache w) = set_cache cache (playbackLoop w))
     /\ (leb MAX_DEMO_DURATION (currentTime video) = false ->
          playbackLoop w =
            requestAnimationFrame
              match closestFrame (cacheRef w) (currentTime video), overlayCanvasRef w with
              | Some frame, Some _ =>
                  renderSegmentationOverlay (odResult frame) video CROP_PERCENT w
              | _, _ => w
              end)
     /\ (forall effects : list Effect,
          trace (playbackLoop w) = trace w ++ effects ->
          existsb is_render effects = true ->
          leb MAX_DEMO_DURATION (currentTime video) = false))
  /\ @leb Binary64.number MAX_DEMO_DURATION (decimal 1495 2) = false
  /\ @leb Binary64.number MAX_DEMO_DURATION (of_Z 15) = true
  /\ @leb Exact.number MAX_DEMO_DURATION (decimal 1495 2) = false
  /\ @leb Exact.number MAX_DEMO_DURATION (of_Z 15) = true.
Proof.
  split; [|repeat split; vm_compute; reflexivity].
  intros JS w video (Hv & Hp & He).
  assert (Hseek : leb MAX_DEMO_DURATION (currentTime video) = true ->
                  playbackLoop w = requestAnimationFrame (seek (of_Z 0) w)).
  { intros Hcap. unfold playbackLoop. now rewrite Hv, Hp, He, Hcap. }
  split; [|split].
  - intros Hcap. split; [now apply Hseek|]. rewrite (Hseek Hcap).
    repeat split.
    + cbn. unfold update_video. rewrite Hv. cbn. now rewrite <- app_assoc.
    + cbn. unfold update_video. now rewrite Hv.
    + cbn. unfold update_video. now rewrite Hv.
    + cbn. unfold update_video. now rewrite Hv.
    + intros cache. unfold playbackLoop. cbn. rewrite Hv, Hp, He, Hcap. cbn.
      unfold seek, update_video. cbn. now rewrite Hv.
  - intros Hcap. unfold playbackLoop. rewrite Hv, Hp, He, Hcap. cbn [orb].
    destruct (closestFrame _ _); [destruct (overlayCanvasRef w)|]; reflexivity.
  - intros effects Htrace Hrender.
    destruct (leb MAX_DEMO_DURATION (currentTime video)) eqn:Hle; [|reflexivity].
    rewrite (Hseek eq_refl) in Htrace. cbn in Htrace.
    unfold update_video in Htrace. rewrite Hv in Htrace. cbn in Htrace.
    rewrite <- app_assoc in Htrace. apply app_inv_head in Htrace. subst effects.
    discriminate.
Qed.

(** A tick at 15 s of a playing video: the seek to 0, and the next frame. *)
Lemma playback_cap_loop_witness :
  let w := example_world (JS := Binary64.number)
             (example_video (of_Z 20) (of_Z 15) false) in
  playbackLoop w = requestAnimationFrame (seek (of_Z 0) w)
  /\ trace (playbackLoop w) = [video_seek (of_Z 0); requestAnimationFrame_].
Proof.
  destruct (proj1 (proj1 playback_cap_loop Binary64.number
                     (example_world (example_video (of_Z 20) (of_Z 15) false))
                     (example_video (of_Z 20) (of_Z 15) false)
                     (conj eq_refl (conj eq_refl eq_refl))) eq_refl)
    as (Hloop & Htrace & _).
  split; [exact Hloop | exact Htrace].
Defined.

(** ** The mask compositor *)

Lemma length_put_pixel (color : Color) (i : nat) (data : list N) :
  length (put_pixel color i data) = length data.
Proof.
  destruct color as [[[r g] b] a]. unfold put_pixel. now rewrite !length_insert.
Qed.

Lemma pixel_put_pixel_eq (color : Color) (i : nat) (data : list N) :
  (i * 4 + 3 < length data)%nat ->
  pixel (put_pixel color i data) i = Some (stored color).
Proof.
  destruct color as [[[r g] b] a]. intros Hi. unfold pixel, put_pixel, stored.
  rewrite (list_lookup_insert_ne _ (i * 4 + 3)) by lia.
  rewrite (list_lookup_insert_ne _ (i * 4 + 2)) by lia.
  rewrite (list_lookup_insert_ne _ (i * 4 + 1)) by lia.
  rewrite list_lookup_insert_eq by lia.
  rewrite (list_lookup_insert_ne _ (i * 4 + 3)) by lia.
  rewrite (list_lookup_insert_ne _ (i * 4 + 2)) by lia.
  rewrite list_lookup_insert_eq by (rewrite !length_insert; lia).
  rewrite (list_lookup_insert_ne _ (i * 4 + 3)) by lia.
  rewrite list_lookup_insert_eq by (rewrite !length_insert; lia).
  rewrite list_lookup_insert_eq by (rewrite !length_insert; lia).
  reflexivity.
Qed.

Lemma pixel_put_pixel_ne (color : Color) (i p : nat) (data : list N) :
  p <> i -> pixel (put_pixel color i data) p = pixel data p.
Proof.
  destruct color as [[[r g] b] a]. intros Hp. unfold pixel, put_pixel.
  now rewrite !list_lookup_insert_ne by lia.
Qed.

Lemma length_fill_mask (color : Color) (maskData : list N) (i : nat) (data : list N) :
  length (fill_mask color maskData i data) = length data.
Proof.
  revert i data. induction maskData as [|m rest IH]; intros i data; cbn; [reflexivity|].
  rewrite IH. destruct (0 <? m)%N; [apply length_put_pixel | reflexivity].
Qed.

(** The loop from index [i] on leaves the pixels before [i] as they are,
    and writes the colour to the pixels whose byte is over 0. *)
Lemma pixel_fill_mask (color : Color) (maskData : list N) (i p : nat) (data : list N) :
  (p * 4 + 3 < length data)%nat ->
  pixel (fill_mask color maskData i data) p =
    if (i <=? p)%nat && member maskData (p - i) then Some (stored color)
    else pixel data p.
Proof.
  revert i data. induction maskData as [|m rest IH]; intros i data Hp; cbn [fill_mask].
  - unfold member. rewrite lookup_nil. now rewrite andb_false_r.
  - rewrite IH by (destruct (0 <? m)%N; [rewrite length_put_pixel|]; exact Hp).
    destruct (Nat.leb_spec (S i) p) as [Hlt | Hge].
    + (* a later pixel *)
      replace (i <=? p)%nat with true by (symmetry; apply Nat.leb_le; lia).
      unfold member. replace (p - i)%nat with (S (p - S i)) by lia. cbn.
      destruct (match rest !! (p - S i)%nat with
                | Some m0 => negb (m0 =? 0)%N | None => false end); [reflexivity|].
      destruct (0 <? m)%N; [apply pixel_put_pixel_ne; lia | reflexivity].
    + cbn [andb]. destruct (Nat.eq_dec p i) as [-> | Hne].
      * (* this pixel *)
        rewrite Nat.leb_refl, Nat.sub_diag. unfold member. cbn.
        destruct (N.ltb_spec 0 m) as [Hm | Hm].
        -- replace (m =? 0)%N with false by (symmetry; apply N.eqb_neq; lia).
           cbn. now apply pixel_put_pixel_eq.
        -- replace (m =? 0)%N with true by (symmetry; apply N.eqb_eq; lia).
           reflexivity.
      * (* an earlier pixel *)
        replace (i <=? p)%nat with false by (symmetry; apply Nat.leb_gt; lia).
        cbn. destruct (0 <? m)%N; [apply pixel_put_pixel_ne; lia | reflexivity].
Qed.

Lemma pixel_createImageData (w h : positive) (p : nat) :
  (p < Pos.to_nat w * Pos.to_nat h)%nat ->
  pixel (createImageData w h) p = Some (0, 0, 0, 0)%N.
Proof.
  intros Hp. unfold pixel, createImageData.
  now rewrite !lookup_replicate_2 by lia.
Qed.

(** C4. The compositor leaves a scratch raster of the size of the mask in
    which pixel [i] holds the given colour when the mask's byte at [i] is not
    0, whatever that byte is, and is transparent otherwise; it sets the size
    of the scratch raster when, and only when, it differs from the size of
    the mask; and it draws that raster on the overlay. A colour of four
    bytes is stored as it is. Without a mask or a scratch canvas nothing
    happens. *)
Theorem mask_compositor :
  (forall (JS : Number) (mask : RawImage) (color : Color) (x y tw th : num)
          (w : World) (helper : HelperCanvas),
     maskHelperCanvasRef w = Some helper ->
     exists bitmap : list N,
       maskHelperCanvasRef (drawMaskToContext (Some mask) color x y tw th w)
         = Some {| helper_width := Npos (width mask);
                   helper_height := Npos (height mask);
                   helper_bitmap := bitmap |}
       /\ length bitmap = (4 * Pos.to_nat (width mask) * Pos.to_nat (height mask))%nat
       /\ (forall i : nat,
             (i < Pos.to_nat (width mask) * Pos.to_nat (height mask))%nat ->
             pixel bitmap i =
               Some (if member (data mask) i then stored color else (0, 0, 0, 0)%N))
       /\ trace (drawMaskToContext (Some mask) color x y tw th w)
            = trace w
              ++ (if resizes helper mask
                  then [helper_resize_ (Npos (width mask)) (Npos (height mask))]
                  else [])
              ++ match overlayCanvasRef w with
                 | Some _ =>
                     [drawImage_ {| source := bitmap;
                                    sw := Npos (width mask); sh := Npos (height mask);
                                    dx := x; dy := y; dw := tw; dh := th;
                                    imageSmoothingEnabled := false |}]
                 | None => []
                 end)
  /\ (forall r g b a : Z,
       0 <= r <= 255 -> 0 <= g <= 255 -> 0 <= b <= 255 -> 0 <= a <= 255 ->
       stored (r, g, b, a) = (Z.to_N r, Z.to_N g, Z.to_N b, Z.to_N a))
  /\ (forall (maskData : list N) (i : nat) (m : N),
       maskData !! i = Some m -> (member maskData i = true <-> m <> 0%N))
  /\ (forall (JS : Number) (mask : option RawImage) (color : Color)
             (x y tw th : num) (w : World),
       mask = None \/ maskHelperCanvasRef w = None ->
       drawMaskToContext mask color x y tw th w = w).
Proof.
  split; [|split; [|split]].
  - intros JS mask color x y tw th w helper Hh.
    exists (fill_mask color (data mask) 0 (createImageData (width mask) (height mask))).
    assert (Hlen : length (fill_mask color (data mask) 0
                             (createImageData (width mask) (height mask)))
                   = (4 * Pos.to_nat (width mask) * Pos.to_nat (height mask))%nat).
    { rewrite length_fill_mask. unfold createImageData. apply length_replicate. }
    unfold drawMaskToContext. rewrite Hh. fold (resizes helper mask).
    split; [|split; [exact Hlen|split]].
    + destruct (resizes helper mask); cbn; destruct (overlayCanvasRef w); reflexivity.
    + intros i Hi. rewrite pixel_fill_mask.
      * cbn [andb Nat.leb]. rewrite Nat.sub_0_r.
        destruct (member (data mask) i); [reflexivity|].
        now apply pixel_createImageData.
      * unfold createImageData. rewrite length_replicate. lia.
    + destruct (resizes helper mask); cbn; destruct (overlayCanvasRef w); cbn;
        rewrite <- ?app_assoc; cbn; now rewrite ?app_nil_r.
  - intros r g b a Hr Hg Hb Ha. unfold stored, clamp8.
    now rewrite !Z.min_r by lia.
  - intros maskData i m Hm. unfold member. rewrite Hm.
    rewrite negb_true_iff. apply N.eqb_neq.
  - intros JS mask color x y tw th w [-> | Hh]; unfold drawMaskToContext.
    + reflexivity.
    + rewrite Hh. now destruct mask.
Qed.

(** The compositor on the example mask: the second pixel gets the colour. *)
Lemma mask_compositor_witness :
  exists bitmap : list N,
    maskHelperCanvasRef
      (drawMaskToContext (Some example_mask) (255, 230, 0, 200)
         (of_Z 0) (of_Z 108) (of_Z 960) (of_Z 432)
         (example_world (JS := Binary64.number)
            (example_video (of_Z 1) (of_Z 0) false)))
      = Some {| helper_width := 2; helper_height := 1; helper_bitmap := bitmap |}
    /\ pixel bitmap 0 = Some (0, 0, 0, 0)%N
    /\ pixel bitmap 1 = Some (255, 230, 0, 200)%N.
Proof.
  destruct (proj1 mask_compositor Binary64.number example_mask (255, 230, 0, 200)
              (of_Z 0) (of_Z 108) (of_Z 960) (of_Z 432)
              (example_world (example_video (of_Z 1) (of_Z 0) false))
              {| helper_width := 640; helper_height := 640; helper_bitmap := [] |}
              eq_refl) as (bitmap & Hhelper & _ & Hpixel & _).
  exists bitmap. split; [exact Hhelper|].
  split; [apply (Hpixel 0%nat) | apply (Hpixel 1%nat)]; cbn; lia.
Defined.

(** ** Label classification *)

Lemma includes_spec (l : list string) (x : string) :
  includes l x = true <-> In x l.
Proof.
  unfold includes. rewrite existsb_exists. split.
  - intros (y & Hy & Heq). apply String.eqb_eq in Heq. now subst.
  - intros Hx. exists x. split; [assumption | apply String.eqb_refl].
Qed.

Lemma Set_add_spec (x y : string) (s : list string) :
  In y (Set_add x s) <-> y = x \/ In y s.
Proof.
  unfold Set_add. destruct (includes s x) eqn:Hx.
  - apply includes_spec in Hx. split; [now right | now intros [-> | ?]].
  - rewrite in_app_iff. cbn. split; [intros [?|[->|[]]] | intros [->|?]]; auto.
Qed.

Section Classification.

Context {JS : Number}.

Lemma fold_overlay_item (ox oy ow oh : num) (results : list SegmentedClass)
    (found : list string) (w : World) :
  fst (fold_left (overlay_item ox oy ow oh) results (found, w))
  = fold_left add_class results found.
Proof.
  revert found w. induction results as [|item results IH]; intros found w; cbn.
  - reflexivity.
  - unfold add_class at 2. destruct (colorMapping item) as [[color class]|]; apply IH.
Qed.

Lemma fold_add_class (results : list SegmentedClass) (found : list string) (c : string) :
  In c (fold_left add_class results found) <->
  In c found \/ exists (item : SegmentedClass) (color : Color),
                  In item results /\ colorMapping item = Some (color, c).
Proof.
  revert found. induction results as [|item results IH]; intros found; cbn.
  - split; [now left | intros [? | (? & ? & [] & _)]; assumption].
  - rewrite IH. unfold add_class.
    destruct (colorMapping item) as [[color class]|] eqn:Hitem.
    + rewrite Set_add_spec. split.
      * intros [[-> | Hc] | (it & col & Hin & Hmap)].
        -- right. exists item, color. auto.
        -- now left.
        -- right. exists it, col. auto.
      * intros [Hc | (it & col & [<- | Hin] & Hmap)].
        -- left. now right.
        -- left. left. congruence.
        -- right. exists it, col. auto.
    + split.
      * intros [Hc | (it & col & Hin & Hmap)]; [now left|].
        right. exists it, col. auto.
      * intros [Hc | (it & col & [<- | Hin] & Hmap)]; [now left | congruence |].
        right. exists it, col. auto.
Qed.

Lemma fold_overlay_item_unmapped (ox oy ow oh : num) (results : list SegmentedClass)
    (st : list string * World) :
  Forall (fun item => colorMapping item = None) results ->
  fold_left (overlay_item ox oy ow oh) results st = st.
Proof.
  intros Hall. revert st. induction Hall as [|item results Hitem _ IH]; intros st; cbn.
  - reflexivity.
  - destruct st as [found w]. unfold overlay_item at 2. rewrite Hitem. apply IH.
Qed.

Lemma colorMapping_traffic_light (item : SegmentedClass) :
  colorMapping item = Some ((255, 230, 0, 200), "TRAFFIC LIGHT"%string) <->
  eq_ignoring_case (label item) "traffic light"
  \/ eq_ignoring_case (label item) "traffic_light".
Proof.
  unfold colorMapping, eq_ignoring_case. cbn [toLowerCase lower].
  change (toLowerCase "traffic light") with "traffic light"%string.
  change (toLowerCase "traffic_light") with "traffic_light"%string.
  destruct (String.eqb_spec (toLowerCase (label item)) "traffic light") as [-> | H1];
    [cbn; split; auto|].
  destruct (String.eqb_spec (toLowerCase (label item)) "traffic_light") as [-> | H2];
    [cbn; split; auto|].
  cbn [orb].
  destruct (includes _ _); split; try discriminate; intros [? | ?]; contradiction.
Qed.

Lemma colorMapping_vehicle (item : SegmentedClass) :
  colorMapping item = Some ((0, 255, 100, 160), "VEHICLE"%string) <->
  exists l : string,
    In l ["car"; "truck"; "bus"; "motorcycle"; "bicycle"]%string
    /\ eq_ignoring_case (label item) l.
Proof.
  unfold colorMapping, eq_ignoring_case.
  destruct (String.eqb_spec (toLowerCase (label item)) "traffic light") as [H1 | H1].
  { cbn [orb]. split; [discriminate|]. intros (l & Hl & Heq). rewrite Heq in H1.
    cbn in Hl. destruct Hl as [<-|[<-|[<-|[<-|[<-|[]]]]]]; discriminate. }
  destruct (String.eqb_spec (toLowerCase (label item)) "traffic_light") as [H2 | H2].
  { cbn [orb]. split; [discriminate|]. intros (l & Hl & Heq). rewrite Heq in H2.
    cbn in Hl. destruct Hl as [<-|[<-|[<-|[<-|[<-|[]]]]]]; discriminate. }
  cbn [orb].
  destruct (includes _ (toLowerCase (label item))) eqn:Hinc.
  - split; [intros _ | reflexivity]. apply includes_spec in Hinc.
    exists (toLowerCase (label item)). split; [exact Hinc|].
    cbn in Hinc. destruct Hinc as [<-|[<-|[<-|[<-|[<-|[]]]]]]; reflexivity.
  - split; [discriminate|]. intros (l & Hl & Heq).
    assert (Hin : includes ["car"; "truck"; "bus"; "motorcycle"; "bicycle"]%string
                    (toLowerCase (label item)) = true); [|congruence].
    apply includes_spec. rewrite Heq.
    cbn in Hl. destruct Hl as [<-|[<-|[<-|[<-|[<-|[]]]]]]; cbn; auto 6.
Qed.

Lemma colorMapping_cases (item : SegmentedClass) :
  colorMapping item = Some ((255, 230, 0, 200), "TRAFFIC LIGHT"%string)
  \/ colorMapping item = Some ((0, 255, 100, 160), "VEHICLE"%string)
  \/ colorMapping item = None.
Proof.
  unfold colorMapping. destruct (_ || _); [now left|].
  destruct (includes _ _); auto.
Qed.

End Classification.

Lemma activeClasses_render {JS : Number} (results : list SegmentedClass)
    (video : HTMLVideoElement) (cropPercent : num) (w : World) (canvas : OverlayCanvas) :
  overlayCanvasRef w = Some canvas ->
  truthy (videoWidth video) = true ->
  truthy (videoHeight video) = true ->
  activeClasses (renderSegmentationOverlay results video cropPercent w)
  = fold_left add_class results [].
Proof.
  intros Hc Hw Hh. unfold renderSegmentationOverlay. rewrite Hc, Hw, Hh. cbn [negb orb].
  destruct (computeDisplayRect _ _ _ _) as [[[displayedW displayedH] offsetX] offsetY].
  match goal with
  | |- context [fold_left (overlay_item ?a ?b ?c ?d) results ([], ?w0)] =>
      pose proof (fold_overlay_item a b c d results [] w0) as Hfold;
      destruct (fold_left (overlay_item a b c d) results ([], w0)) as [found w1]
  end.
  cbn in Hfold |- *. exact Hfold.
Qed.

(** C5. The colour mapping reads the label without regard to case: a label
    equal to 'traffic light' or 'traffic_light' gets (255,230,0,200) and the
    class TRAFFIC LIGHT; a label among 'car', 'truck', 'bus', 'motorcycle',
    'bicycle' gets (0,255,100,160) and VEHICLE; any other label gets no
    colour, and its result changes neither the overlay nor the classes it
    found. The classes reported after a render are those of the mapped
    results. 'Traffic Light' is a TRAFFIC LIGHT; 'pedestrian' draws nothing
    and reports no class. *)
Theorem label_classification :
  (forall (JS : Number) (item : SegmentedClass),
     (colorMapping item = Some ((255, 230, 0, 200), "TRAFFIC LIGHT"%string) <->
        eq_ignoring_case (label item) "traffic light"
        \/ eq_ignoring_case (label item) "traffic_light")
     /\ (colorMapping item = Some ((0, 255, 100, 160), "VEHICLE"%string) <->
          exists l : string,
            In l ["car"; "truck"; "bus"; "motorcycle"; "bicycle"]%string
            /\ eq_ignoring_case (label item) l)
     /\ (colorMapping item = Some ((255, 230, 0, 200), "TRAFFIC LIGHT"%string)
         \/ colorMapping item = Some ((0, 255, 100, 160), "VEHICLE"%string)
         \/ colorMapping item = None))
  /\ (forall (JS : Number) (a b : SegmentedClass),
       eq_ignoring_case (label a) (label b) -> colorMapping a = colorMapping b)
  /\ (forall (JS : Number) (ox oy ow oh : num) (st : list string * World)
             (item : SegmentedClass),
       colorMapping item = None -> overlay_item ox oy ow oh st item = st)
  /\ (forall (JS : Number) (results : list SegmentedClass) (video : HTMLVideoElement)
             (cropPercent : num) (w : World) (canvas : OverlayCanvas),
       overlayCanvasRef w = Some canvas ->
       truthy (videoWidth video) = true ->
       truthy (videoHeight video) = true ->
       forall class : string,
         In class (activeClasses (renderSegmentationOverlay results video cropPercent w))
         <-> exists (item : SegmentedClass) (color : Color),
               In item results /\ colorMapping item = Some (color, class))
  /\ colorMapping (example_item (JS := Binary64.number) "Traffic Light")
     = Some ((255, 230, 0, 200), "TRAFFIC LIGHT"%string)
  /\ colorMapping (example_item (JS := Binary64.number) "pedestrian") = None
  /\ (let video := example_video (JS := Binary64.number) (of_Z 1) (of_Z 0) false in
      let w := renderSegmentationOverlay [example_item "pedestrian"] video
                 CROP_PERCENT (example_world video) in
      activeClasses w = [] /\ option_map drawn (overlayCanvasRef w) = Some []
      /\ trace w = [clearRect_; setActiveClasses_ []]).
Proof.
  split; [|split; [|split; [|split; [|split; [|split]]]]].
  - intros JS item. split; [apply colorMapping_traffic_light|].
    split; [apply colorMapping_vehicle | apply colorMapping_cases].
  - intros JS a b Heq. unfold colorMapping. now rewrite Heq.
  - intros JS ox oy ow oh [found w] item Hitem. unfold overlay_item. now rewrite Hitem.
  - intros JS results video cropPercent w canvas Hc Hw Hh class.
    rewrite (activeClasses_render results video cropPercent w canvas Hc Hw Hh).
    rewrite fold_add_class. split; [intros [[] | Hex]; exact Hex | now right].
  - reflexivity.
  - reflexivity.
  - repeat split; reflexivity.
Qed.

(** The classes of a traffic light and a pedestrian: TRAFFIC LIGHT only. *)
Lemma label_classification_witness :
  let video := example_video (JS := Binary64.number) (of_Z 1) (of_Z 0) false in
  let w := renderSegmentationOverlay
             [example_item "Traffic Light"; example_item "pedestrian"] video
             CROP_PERCENT (example_world video) in
  In "TRAFFIC LIGHT"%string (activeClasses w)
  /\ ~ In "VEHICLE"%string (activeClasses w).
Proof.
  pose proof (proj1 (proj2 (proj2 (proj2 label_classification))) Binary64.number
                [example_item "Traffic Light"; example_item "pedestrian"]
                (example_video (of_Z 1) (of_Z 0) false) CROP_PERCENT
                (example_world (example_video (of_Z 1) (of_Z 0) false))
                {| overlay_width := of_Z 300; overlay_height := of_Z 150; drawn := [] |}
                eq_refl eq_refl eq_refl) as Hclasses.
  split.
  - apply Hclasses. exists (example_item "Traffic Light"), (255, 230, 0, 200).
    split; [now left | reflexivity].
  - intros Hin. apply Hclasses in Hin as (item & color & Hitem & Hmap).
    destruct Hitem as [<- | [<- | []]]; discriminate.
Defined.

(** ** Assignments to the video element *)

Section Fields.

Context {JS : Number}.
Variable f : HTMLVideoElement -> HTMLVideoElement.

Lemma trace_update_video (w : World) : trace (update_video f w) = trace w.
Proof. unfold update_video. now destruct (visibleVideoRef w). Qed.

Lemma cacheRef_update_video (w : World) : cacheRef (update_video f w) = cacheRef w.
Proof. unfold update_video. now destruct (visibleVideoRef w). Qed.

Lemma requestRef_update_video (w : World) : requestRef (update_video f w) = requestRef w.
Proof. unfold update_video. now destruct (visibleVideoRef w). Qed.

Lemma isPlaying_update_video (w : World) : isPlaying (update_video f w) = isPlaying w.
Proof. unfold update_video. now destruct (visibleVideoRef w). Qed.

Lemma analysisStatus_update_video (w : World) :
  analysisStatus (update_video f w) = analysisStatus w.
Proof. unfold update_video. now destruct (visibleVideoRef w). Qed.

Lemma progress_update_video (w : World) : progress (update_video f w) = progress w.
Proof. unfold update_video. now destruct (visibleVideoRef w). Qed.

Lemma overlayCanvasRef_update_video (w : World) :
  overlayCanvasRef (update_video f w) = overlayCanvasRef w.
Proof. unfold update_video. now destruct (visibleVideoRef w). Qed.

Lemma visibleVideoRef_update_video (w : World) :
  visibleVideoRef (update_video f w) = option_map f (visibleVideoRef w).
Proof.
  unfold update_video. destruct (visibleVideoRef w) eqn:Hv; [reflexivity | exact Hv].
Qed.

End Fields.

Create Rewrite HintDb world.

#[local] Hint Rewrite @trace_update_video @cacheRef_update_video
  @requestRef_update_video @isPlaying_update_video @analysisStatus_update_video
  @progress_update_video @overlayCanvasRef_update_video
  @visibleVideoRef_update_video : world.

Ltac simpl_world := cbn; repeat (progress (autorewrite with world; cbn)).

(** ** The analysis scheduler *)

Section Scheduler.

Context {JS : Number}.
Variable predict : num -> option (list SegmentedClass).
Variables effectiveDuration steps cropY vw cropHeight segHeight : num.

Local Abbreviation step := (sampling_step predict effectiveDuration steps
                          cropY vw cropHeight segHeight).
Local Abbreviation loop fuel := (sampling_loop predict fuel effectiveDuration steps
                               cropY vw cropHeight segHeight).
Local Abbreviation steps_from n k := (sampling_steps predict n k effectiveDuration steps
                                    cropY vw cropHeight segHeight).
Local Abbreviation limit := (add effectiveDuration (decimal 1 1)).

(** The loop makes a turn for each sampling time up to the limit and ends
    at the first one over it, given the fuel for these turns. *)
Lemma sampling_loop_steps (n : nat) :
  forall (fuel k : nat) (w : World),
    (forall i : nat, (k <= i < k + n)%nat -> leb (sample_time i) limit = true) ->
    leb (sample_time (k + n)) limit = false ->
    (n < fuel)%nat ->
    loop fuel (sample_time k) (frame_count k) w = Some (steps_from n k w).
Proof.
  induction n as [|n IH]; intros fuel k w Hin Hout Hfuel;
    (destruct fuel as [|fuel]; [lia|]); cbn [sampling_loop sampling_steps].
  - rewrite Nat.add_0_r in Hout. now rewrite Hout.
  - rewrite (Hin k) by lia.
    change (step (sample_time k) (frame_count k) w)
      with (sample_time (S k), frame_count (S k),
            snd (step (sample_time k) (frame_count k) w)).
    apply IH; [| |lia].
    + intros i Hi. apply Hin. lia.
    + now replace (S k + n)%nat with (k + S n)%nat by lia.
Qed.

(** The effects of one turn. *)
Lemma trace_sampling_step (t c : num) (w : World) :
  trace (snd (step t c w))
  = trace w ++ step_effects predict effectiveDuration steps cropY vw cropHeight
                 segHeight t c.
Proof.
  unfold sampling_step, step_effects, progress_at. cbn [snd].
  destruct (leb (add t ANALYSIS_INTERVAL) limit), (predict t); simpl_world;
    rewrite <- ?app_assoc; reflexivity.
Qed.

Lemma trace_sampling_steps (n : nat) :
  forall (k : nat) (w : World),
    trace (steps_from n k w)
    = trace w
      ++ concat (map (fun i => step_effects predict effectiveDuration steps cropY vw
                                 cropHeight segHeight (sample_time i) (frame_count i))
                     (seq k n)).
Proof.
  induction n as [|n IH]; intros k w; cbn [sampling_steps seq map concat].
  - now rewrite app_nil_r.
  - now rewrite IH, trace_sampling_step, <- app_assoc.
Qed.

Lemma cacheRef_sampling_step (t c : num) (w : World) :
  cacheRef (snd (step t c w)) = cacheRef w ++ option_list (frame_at predict t).
Proof.
  unfold sampling_step, frame_at. cbn [snd].
  destruct (leb (add t ANALYSIS_INTERVAL) limit), (predict t); simpl_world;
    rewrite ?app_nil_r; reflexivity.
Qed.

Lemma cacheRef_sampling_steps (n : nat) :
  forall (k : nat) (w : World),
    cacheRef (steps_from n k w)
    = cacheRef w ++ omap (frame_at predict) (map sample_time (seq k n)).
Proof.
  induction n as [|n IH]; intros k w; cbn [sampling_steps seq map].
  - cbn. now rewrite app_nil_r.
  - rewrite IH, cacheRef_sampling_step, <- app_assoc. f_equal.
    cbn [omap list_omap]. now destruct (frame_at predict (sample_time k)).
Qed.

Lemma captures_sampling_steps (n : nat) :
  forall (k : nat) (w : World),
    captures (trace (steps_from n k w))
    = captures (trace w) ++ map sample_time (seq k n).
Proof.
  induction n as [|n IH]; intros k w; cbn [sampling_steps seq map].
  - now rewrite app_nil_r.
  - rewrite IH, trace_sampling_step. unfold captures, step_effects.
    rewrite !omap_app, <- !app_assoc. f_equal. cbn.
    destruct (leb _ _), (predict _); reflexivity.
Qed.

Lemma progress_sampling_steps (n : nat) :
  forall (k : nat) (w : World),
    progress_reports (trace (steps_from n k w))
    = progress_reports (trace w)
      ++ map (fun i => progress_at steps (frame_count i)) (seq (S k) n).
Proof.
  induction n as [|n IH]; intros k w; cbn [sampling_steps seq map].
  - now rewrite app_nil_r.
  - rewrite IH, trace_sampling_step. unfold progress_reports, step_effects.
    rewrite !omap_app, <- !app_assoc. f_equal. cbn.
    destruct (leb _ _), (predict _); reflexivity.
Qed.



End Scheduler.

(** ** The scheduler in exact arithmetic *)

Module ExactScheduler.
Import Exact.


Lemma interval_exact : ANALYSIS_INTERVAL = fin (inject_Z 2 / inject_Z 10).
Proof. reflexivity. Qed.

Lemma tenth_exact : decimal 1 1 = fin (inject_Z 1 / inject_Z 10).
Proof. reflexivity. Qed.

Lemma sample_time_exact (k : nat) : is_value (sample_time k) (Qnat k * (1 # 5)).
Proof.
  induction k as [|k IH].
  - cbn. reflexivity.
  - cbn [sample_time]. rewrite interval_exact.
    destruct (sample_time k) as [q| | |]; try contradiction.
    cbn in IH |- *. rewrite IH. unfold Qnat.
    rewrite Nat2Z.inj_succ, <- Z.add_1_r, inject_Z_plus. field.
Qed.


Lemma effective_exact (d : Q) : Math_min (fin d) MAX_DEMO_DURATION = fin (effective d).
Proof.
  unfold effective. cbn. unfold Qmin, GenericMinMax.gmin.
  destruct (Qle_bool d (inject_Z 15)) eqn:Hle; cbn.
  - apply Qle_bool_iff in Hle. change (inject_Z 15) with 15%Q in Hle.
    destruct (d ?= 15)%Q eqn:Hc; try reflexivity.
    apply Qgt_alt in Hc. lra.
  - assert (Hgt : (15 < d)%Q).
    { apply Qnot_le_lt. intros H. apply Qle_bool_iff in H.
      change 15%Q with (inject_Z 15) in H. congruence. }
    apply Qgt_alt in Hgt. now rewrite Hgt.
Qed.

Lemma effective_bounds (d : Q) :
  (0 < d)%Q -> (0 < effective d <= 15)%Q /\ (effective d <= d)%Q.
Proof.
  intros Hd. unfold effective.
  pose proof (Q.le_min_l d 15). pose proof (Q.le_min_r d 15).
  destruct (Q.min_spec d 15) as [[Hlt Heq] | [Hle Heq]]; lra.
Qed.

(** The test of the loop on a sampling time. *)
Lemma leb_sample_time (e : Q) (k : nat) :
  leb (sample_time k) (add (fin e) (decimal 1 1)) = true
  <-> (Qnat k * (1 # 5) <= e + (1 # 10))%Q.
Proof.
  pose proof (sample_time_exact k) as Hk. rewrite tenth_exact.
  destruct (sample_time k) as [q| | |]; try contradiction.
  cbn in Hk. unfold fin. cbn [leb add number xleb xadd].
  rewrite Qle_bool_iff, Hk.
  change (inject_Z 1 / inject_Z 10)%Q with (1 # 10)%Q. reflexivity.
Qed.

Lemma turns_spec (e : Q) (k : nat) :
  (0 <= e)%Q ->
  ((k < turns e)%nat <-> (Qnat k * (1 # 5) <= e + (1 # 10))%Q).
Proof.
  intros He. unfold turns, Qnat.
  pose proof (Qfloor_le (5 * e + (1 # 2))) as Hlo.
  pose proof (Qlt_floor (5 * e + (1 # 2))) as Hhi.
  rewrite inject_Z_plus in Hhi. change (inject_Z 1) with 1%Q in Hhi.
  assert (H0 : (0 <= Qfloor (5 * e + (1 # 2)))%Z).
  { apply Z.lt_succ_r. rewrite <- Z.add_1_r, Zlt_Qlt, inject_Z_plus.
    change (inject_Z 0) with 0%Q. change (inject_Z 1) with 1%Q. lra. }
  split.
  - intros Hk.
    assert (Hz : (Z.of_nat k <= Qfloor (5 * e + (1 # 2)))%Z) by lia.
    rewrite Zle_Qle in Hz. lra.
  - intros Hk.
    assert (Hz : (Z.of_nat k < Qfloor (5 * e + (1 # 2)) + 1)%Z); [|lia].
    rewrite Zlt_Qlt, inject_Z_plus. change (inject_Z 1) with 1%Q. lra.
Qed.

End ExactScheduler.

(** ** What playback leaves to the scheduler *)

Section Playback.

Context {JS : Number}.

Lemma extends_refl (w : World) : extends w w.
Proof. exists []. now rewrite app_nil_r. Qed.

Lemma extends_trans (w1 w2 w3 : World) : extends w1 w2 -> extends w2 w3 -> extends w1 w3.
Proof.
  intros (e1 & H1 & Q1) (e2 & H2 & Q2). exists (e1 ++ e2).
  rewrite H2, H1, <- app_assoc. split; [reflexivity|].
  rewrite forallb_app. now rewrite Q1, Q2.
Qed.

Lemma extends_emit (e : Effect) (w : World) : is_sampling e = false -> extends w (emit e w).
Proof. intros He. exists [e]. cbn. now rewrite He. Qed.

Lemma extends_captures (w w' : World) :
  extends w w' -> captures (trace w') = captures (trace w).
Proof.
  intros (effects & -> & Hq). unfold captures. rewrite omap_app.
  rewrite <- (app_nil_r (omap _ (trace w))) at 2. f_equal.
  induction effects as [|e effects IH]; [reflexivity|].
  cbn in Hq. apply andb_prop in Hq as [He Hq]. cbn. rewrite (IH Hq).
  now destruct e.
Qed.

Lemma extends_progress (w w' : World) :
  extends w w' -> progress_reports (trace w') = progress_reports (trace w).
Proof.
  intros (effects & -> & Hq). unfold progress_reports. rewrite omap_app.
  rewrite <- (app_nil_r (omap _ (trace w))) at 2. f_equal.
  induction effects as [|e effects IH]; [reflexivity|].
  cbn in Hq. apply andb_prop in Hq as [He Hq]. cbn. rewrite (IH Hq).
  now destruct e.
Qed.

Lemma drawMaskToContext_session (mask : option RawImage) (color : Color)
    (x y tw th : num) (w : World) :
  session (drawMaskToContext mask color x y tw th w) = session w
  /\ extends w (drawMaskToContext mask color x y tw th w).
Proof.
  unfold drawMaskToContext.
  destruct mask as [mask|]; [|split; [reflexivity | apply extends_refl]].
  destruct (maskHelperCanvasRef w) as [helper|];
    [|split; [reflexivity | apply extends_refl]].
  destruct (negb _ || negb _); cbn; destruct (overlayCanvasRef w); cbn;
    (split; [reflexivity|]); eexists; cbn; rewrite <- ?app_assoc;
    (split; [reflexivity|]) || (split; [symmetry; apply app_nil_r|]); reflexivity.
Qed.

Lemma fold_overlay_item_session (ox oy ow oh : num) (results : list SegmentedClass) :
  forall (found : list string) (w : World),
    session (snd (fold_left (overlay_item ox oy ow oh) results (found, w))) = session w
    /\ extends w (snd (fold_left (overlay_item ox oy ow oh) results (found, w))).
Proof.
  induction results as [|item results IH]; intros found w; cbn [fold_left].
  - split; [reflexivity | apply extends_refl].
  - unfold overlay_item at 2 4.
    destruct (colorMapping item) as [[color class]|]; [|apply IH].
    destruct (drawMaskToContext_session (mask item) color ox oy ow oh w) as [Hs He].
    destruct (IH (Set_add class found)
                (drawMaskToContext (mask item) color ox oy ow oh w)) as [Hs' He'].
    split; [now rewrite Hs', Hs | eapply extends_trans; eassumption].
Qed.

Lemma renderSegmentationOverlay_session (results : list SegmentedClass)
    (video : HTMLVideoElement) (cropPercent : num) (w : World) :
  session (renderSegmentationOverlay results video cropPercent w) = session w
  /\ extends w (renderSegmentationOverlay results video cropPercent w).
Proof.
  unfold renderSegmentationOverlay.
  destruct (overlayCanvasRef w) as [canvas|]; [|split; [reflexivity | apply extends_refl]].
  match goal with |- context [emit clearRect_ ?w0] => set (w1 := emit clearRect_ w0) end.
  assert (H1 : session w1 = session w /\ extends w w1).
  { split; [reflexivity|]. exists [clearRect_]. split; reflexivity. }
  destruct (negb (truthy (videoWidth video)) || negb (truthy (videoHeight video)));
    [exact H1|].
  destruct (computeDisplayRect _ _ _ _) as [[[displayedW displayedH] offsetX] offsetY].
  match goal with
  | |- context [fold_left (overlay_item ?a ?b ?c ?d) results ([], w1)] =>
      pose proof (fold_overlay_item_session a b c d results [] w1) as [Hs He];
      destruct (fold_left (overlay_item a b c d) results ([], w1)) as [found w2]
  end.
  cbn [snd] in Hs, He. destruct H1 as [Hs1 He1]. split.
  - rewrite <- Hs1, <- Hs. reflexivity.
  - eapply extends_trans; [exact He1|]. eapply extends_trans; [exact He|].
    exists [setActiveClasses_ found]. split; reflexivity.
Qed.

Lemma playbackLoop_extends (w : World) :
  extends w (playbackLoop w)
  /\ cacheRef (playbackLoop w) = cacheRef w
  /\ analysisStatus (playbackLoop w) = analysisStatus w.
Proof.
  unfold playbackLoop.
  assert (Hstop : extends w (setIsPlaying false w)
                  /\ cacheRef (setIsPlaying false w) = cacheRef w
                  /\ analysisStatus (setIsPlaying false w) = analysisStatus w).
  { repeat split. exists [setIsPlaying_ false]. split; reflexivity. }
  destruct (visibleVideoRef w) as [video|] eqn:Hv; [|exact Hstop].
  destruct (paused video || ended video); [exact Hstop|].
  destruct (leb MAX_DEMO_DURATION (currentTime video)).
  - split; [|split]; simpl_world; try reflexivity.
    exists [video_seek (of_Z 0); requestAnimationFrame_]. simpl_world.
    now rewrite <- app_assoc.
  - match goal with
    | |- context [requestAnimationFrame ?w0] =>
        assert (Hr : session w0 = session w /\ extends w w0)
    end.
    { destruct (closestFrame _ _) as [frame|]; [|split; [reflexivity|apply extends_refl]].
      destruct (overlayCanvasRef w); [|split; [reflexivity|apply extends_refl]].
      apply renderSegmentationOverlay_session. }
    destruct Hr as [Hs He]. unfold session in Hs. injection Hs as _ Hc _ _ Ha _.
    repeat split; cbn; try assumption.
    eapply extends_trans; [exact He|].
    exists [requestAnimationFrame_]. split; reflexivity.
Qed.

Lemma togglePlay_extends (closure_isPlaying play_resolves : bool) (w : World) :
  extends w (togglePlay closure_isPlaying play_resolves w)
  /\ cacheRef (togglePlay closure_isPlaying play_resolves w) = cacheRef w
  /\ analysisStatus (togglePlay closure_isPlaying play_resolves w) = analysisStatus w.
Proof.
  unfold togglePlay.
  destruct (visibleVideoRef w) as [video|] eqn:Hv;
    [|repeat split; apply extends_refl].
  destruct closure_isPlaying; [|destruct play_resolves].
  - simpl_world.
    destruct (requestRef w); (split; [|split]); simpl_world; try reflexivity;
      eexists; simpl_world; rewrite <- ?app_assoc; (split; [reflexivity|]);
      reflexivity.
  - match goal with |- context [playbackLoop ?w0] =>
      destruct (playbackLoop_extends w0) as (He & Hc & Ha);
      assert (He0 : extends w w0)
    end.
    { exists [video_play true; setIsPlaying_ true]. simpl_world.
      now rewrite <- app_assoc. }
    split; [|split].
    + eapply extends_trans; eassumption.
    + rewrite Hc. now simpl_world.
    + rewrite Ha. now simpl_world.
  - split; [|split]; try reflexivity.
    exists [video_play false; console_error]. cbn. now rewrite <- app_assoc.
Qed.

Lemma analysis_end_extends (closure_isPlaying play_resolves : bool) (w : World) :
  extends w (analysis_end closure_isPlaying play_resolves w)
  /\ cacheRef (analysis_end closure_isPlaying play_resolves w) = cacheRef w
  /\ analysisStatus (analysis_end closure_isPlaying play_resolves w) = complete.
Proof.
  unfold analysis_end.
  destruct (togglePlay_extends closure_isPlaying play_resolves
              (seek (of_Z 0) (setAnalysisStatus complete w))) as (He & Hc & Ha).
  split; [|split].
  - eapply extends_trans; [|exact He].
    exists [setAnalysisStatus_ complete; video_seek (of_Z 0)]. simpl_world.
    now rewrite <- app_assoc.
  - rewrite Hc. now simpl_world.
  - rewrite Ha. now simpl_world.
Qed.

Lemma analysis_start_extends (w : World) :
  extends w (analysis_start w)
  /\ cacheRef (analysis_start w) = []
  /\ standing (analysis_start w)
     = (option_map (fun v => (true, ended v)) (visibleVideoRef w),
        requestRef w, false, analyzing).
Proof.
  unfold analysis_start. split; [|split].
  - exists [setAnalysisStatus_ analyzing; setIsPlaying_ false; video_pause;
            video_seek (of_Z 0)].
    simpl_world. rewrite <- !app_assoc. split; reflexivity.
  - now simpl_world.
  - unfold standing. simpl_world. now destruct (visibleVideoRef w).
Qed.

End Playback.

(** ** The analysis pass in exact arithmetic *)

Module ExactAnalysis.
Import Exact ExactScheduler.

Lemma Qsign_pos (x : Q) : (0 < x)%Q -> Qsign x = Some false.
Proof.
  unfold Qlt, Qsign. cbn. destruct (Qnum x); intros H; try lia. reflexivity.
Qed.

Lemma truthy_fin (d : Q) : (0 < d)%Q -> truthy (fin d) = true.
Proof. intros Hd. cbn. now rewrite (Qsign_pos d Hd). Qed.

Lemma turns_bound (e : Q) : (0 <= e <= 15)%Q -> (turns e <= 76)%nat.
Proof.
  intros He. destruct (Nat.le_gt_cases (turns e) 76) as [H | H]; [exact H|].
  apply (turns_spec e 76) in H; [|lra].
  change (Qnat 76) with 76%Q in H. lra.
Qed.

Lemma steps_exact (e : Q) :
  is_value (add (Math_ceil (div (fin e) ANALYSIS_INTERVAL)) (of_Z 1))
           (inject_Z (total_steps e)).
Proof.
  cbn. unfold total_steps. rewrite inject_Z_plus.
  apply Qplus_comp; [|reflexivity]. apply inject_Z_injective.
  apply Qceiling_comp, Qdiv_comp; reflexivity.
Qed.

(** A pass on a video of duration [d > 0]: the scheduler returns, after
    [turns (effective d)] turns of the loop from the start state. *)
Lemma startAnalysis_exact (predict : num -> option (list SegmentedClass))
    (fuel : nat) (closure_isPlaying play_resolves : bool)
    (w : World) (video : HTMLVideoElement) (d : Q) :
  visibleVideoRef w = Some video ->
  duration video = fin d ->
  (0 < d)%Q ->
  (77 <= fuel)%nat ->
  exists steps cropY vw cropHeight segHeight : num,
    is_value steps (inject_Z (total_steps (effective d)))
    /\ startAnalysis predict fuel closure_isPlaying play_resolves w
       = Some (analysis_end closure_isPlaying play_resolves
                 (sampling_steps predict (turns (effective d)) 0
                    (fin (effective d)) steps cropY vw cropHeight segHeight
                    (analysis_start w))).
Proof.
  intros Hv Hd Hpos Hfuel.
  destruct (effective_bounds d Hpos) as [He _].
  unfold startAnalysis. rewrite Hv, Hd, (truthy_fin d Hpos). cbn [negb].
  rewrite effective_exact.
  pose (steps := add (Math_ceil (div (fin (effective d)) ANALYSIS_INTERVAL)) (of_Z 1)).
  pose (cropY := Math_floor (mul (videoHeight video) CROP_PERCENT)).
  pose (cropHeight := sub (videoHeight video) cropY).
  pose (segHeight := Math_floor (mul SEG_INPUT_SIZE (div cropHeight (videoWidth video)))).
  exists steps, cropY, (videoWidth video), cropHeight, segHeight.
  split; [apply steps_exact|].
  pose proof (sampling_loop_steps predict (fin (effective d)) steps cropY
                (videoWidth video) cropHeight segHeight (turns (effective d))
                fuel 0 (analysis_start w)) as Hloop.
  cbn [sample_time frame_count] in Hloop. unfold analysis_start in Hloop at 1.
  fold steps cropY cropHeight segHeight. rewrite Hloop.
  - reflexivity.
  - intros i Hi. apply leb_sample_time, turns_spec; [lra | lia].
  - apply not_true_iff_false. rewrite leb_sample_time, <- turns_spec by lra. cbn. lia.
  - assert (turns (effective d) <= 76)%nat by (apply turns_bound; lra). lia.
Qed.

(** What a pass leaves: the sampling times it captured, the cache, the
    progress it reported, the failures it logged. *)
Lemma analysis_pass (predict : num -> option (list SegmentedClass))
    (fuel : nat) (closure_isPlaying play_resolves : bool)
    (w : World) (video : HTMLVideoElement) (d : Q) :
  visibleVideoRef w = Some video ->
  duration video = fin d ->
  (0 < d)%Q ->
  (77 <= fuel)%nat ->
  exists (w' : World) (steps : num),
    startAnalysis predict fuel closure_isPlaying play_resolves w = Some w'
    /\ is_value steps (inject_Z (total_steps (effective d)))
    /\ captures (trace w')
       = captures (trace w) ++ map sample_time (seq 0 (turns (effective d)))
    /\ cacheRef w'
       = omap (frame_at predict) (map sample_time (seq 0 (turns (effective d))))
    /\ progress_reports (trace w')
       = progress_reports (trace w)
         ++ map (fun i => progress_at steps (frame_count i))
                (seq 1 (turns (effective d)))
    /\ analysisStatus w' = complete
    /\ (forall i : nat, (i < turns (effective d))%nat ->
          predict (sample_time i) = None ->
          In (predict_ (sample_time i) false) (trace w')).
Proof.
  intros Hv Hd Hpos Hfuel.
  destruct (startAnalysis_exact predict fuel closure_isPlaying play_resolves
              w video d Hv Hd Hpos Hfuel)
    as (steps & cropY & vw & cropHeight & segHeight & Hsteps & Hrun).
  set (w1 := sampling_steps predict (turns (effective d)) 0 (fin (effective d))
               steps cropY vw cropHeight segHeight (analysis_start w)) in *.
  destruct (analysis_start_extends w) as (Hs0 & Hc0 & _).
  destruct (analysis_end_extends closure_isPlaying play_resolves w1)
    as (He & Hc & Ha).
  exists (analysis_end closure_isPlaying play_resolves w1), steps.
  split; [exact Hrun|]. split; [exact Hsteps|]. split; [|split; [|split; [|split]]].
  - rewrite (extends_captures _ _ He). unfold w1.
    now rewrite captures_sampling_steps, (extends_captures _ _ Hs0).
  - rewrite Hc. unfold w1. now rewrite cacheRef_sampling_steps, Hc0.
  - rewrite (extends_progress _ _ He). unfold w1.
    now rewrite progress_sampling_steps, (extends_progress _ _ Hs0).
  - exact Ha.
  - intros i Hi Hfail. destruct He as (effects & -> & _).
    apply in_or_app. left. unfold w1. rewrite trace_sampling_steps.
    apply in_or_app. right. apply in_concat.
    eexists. split; [apply in_map, in_seq; split; [apply Nat.le_0_l | exact Hi]|].
    unfold step_effects. rewrite Hfail.
    apply in_or_app. right. apply in_or_app. right. now left.
Qed.

End ExactAnalysis.

(** ** The claims on the analysis scheduler *)









Module ExactCache.
Import Exact ExactScheduler.




End ExactCache.



(** ** Progress *)

Module ExactProgress.
Import Exact ExactScheduler.



End ExactProgress.




(** ** The end of a pass *)

Section Completion.

Context {JS : Number}.



End Completion.




(** ** Geometry *)

Section Placement.

Context {JS : Number}.





End Placement.

Module ExactGeometry.
Import Exact.


End ExactGeometry.



(** * Further properties *)

(** ** The conversion to RGB *)

Lemma length_rgb_loop (n : nat) :
  forall (i : nat) (data rgbData : list N),
    length (rgb_loop n i data rgbData) = length rgbData.
Proof.
  induction n as [|n IH]; intros i data rgbData; cbn [rgb_loop]; [reflexivity|].
  now rewrite IH, !length_insert.
Qed.

(** The loop from the pixel [i] on leaves the bytes of the pixels before
    [i], and writes the three bytes of each pixel from [i] on. *)
Lemma lookup_rgb_loop (n : nat) :
  forall (i : nat) (data rgbData : list N) (p c : nat),
    (c < 3)%nat ->
    (p * 3 + c < length rgbData)%nat ->
    rgb_loop n i data rgbData !! (p * 3 + c)%nat
    = if (i <=? p)%nat && (p <? i + n)%nat
      then Some (element data (p * 4 + c))
      else rgbData !! (p * 3 + c)%nat.
Proof.
  induction n as [|n IH]; intros i data rgbData p c Hc Hp; cbn [rgb_loop].
  - replace ((i <=? p)%nat && (p <? i + 0)%nat) with false; [reflexivity|].
    symmetry. apply andb_false_iff.
    destruct (Nat.leb_spec i p); [right; apply Nat.ltb_ge; lia | now left].
  - rewrite IH by (rewrite ?length_insert; assumption).
    destruct (Nat.leb_spec (S i) p) as [Hlt | Hge].
    + replace (i <=? p)%nat with true by (symmetry; apply Nat.leb_le; lia).
      replace (p <? i + S n)%nat with (p <? S i + n)%nat by (f_equal; lia).
      cbn [andb]. destruct (p <? S i + n)%nat; [reflexivity|].
      now rewrite !list_lookup_insert_ne by lia.
    + cbn [andb]. destruct (Nat.eq_dec p i) as [-> | Hne].
      * rewrite Nat.leb_refl.
        replace (i <? i + S n)%nat with true by (symmetry; apply Nat.ltb_lt; lia).
        cbn [andb].
        destruct c as [|[|[|c]]]; [| | |lia].
        -- rewrite !Nat.add_0_r.
           rewrite !list_lookup_insert_ne by lia.
           now rewrite list_lookup_insert_eq by (rewrite Nat.add_0_r in Hp; exact Hp).
        -- rewrite list_lookup_insert_ne by lia.
           now rewrite list_lookup_insert_eq by (rewrite ?length_insert; exact Hp).
        -- now rewrite list_lookup_insert_eq by (rewrite ?length_insert; exact Hp).
      * replace (i <=? p)%nat with false by (symmetry; apply Nat.leb_gt; lia).
        cbn [andb]. now rewrite !list_lookup_insert_ne by lia.
Qed.

Lemma length_toRGB (data : list N) (len : nat) :
  length (toRGB data len) = (len * 3)%nat.
Proof. unfold toRGB. now rewrite length_rgb_loop, length_replicate. Qed.

Lemma lookup_toRGB (data : list N) (len p c : nat) :
  (p < len)%nat -> (c < 3)%nat ->
  toRGB data len !! (p * 3 + c)%nat = Some (element data (p * 4 + c)).
Proof.
  intros Hp Hc. unfold toRGB.
  rewrite lookup_rgb_loop by (rewrite ?length_replicate; lia).
  cbn [Nat.leb andb Nat.add].
  now replace (p <? len)%nat with true by (symmetry; apply Nat.ltb_lt; lia).
Qed.

(** Two lists of one length with the same elements. *)
Lemma list_eq_pixels (l1 l2 : list N) (len : nat) :
  length l1 = (len * 3)%nat -> length l2 = (len * 3)%nat ->
  (forall p c : nat, (p < len)%nat -> (c < 3)%nat ->
     l1 !! (p * 3 + c)%nat = l2 !! (p * 3 + c)%nat) ->
  l1 = l2.
Proof.
  intros H1 H2 H. apply list_eq. intros k.
  destruct (Nat.lt_ge_cases k (len * 3)) as [Hk | Hk].
  - rewrite (Nat.div_mod_eq k 3), (Nat.mul_comm 3).
    apply H.
    + apply Nat.Div0.div_lt_upper_bound. lia.
    + apply Nat.mod_upper_bound. lia.
  - now rewrite !lookup_ge_None_2 by lia.
Qed.

(** X1. For a service with a pipeline and a canvas with a 2d context and
    sides that are not 0, [predict] settles as the pipeline does on an image
    of the width and the height of the canvas, of 3 channels and of 3 bytes
    a pixel: the red, green and blue bytes of the pixel of the canvas, in
    this order. The alpha bytes are not read: two canvases that differ in
    them only get the same answer. *)
Theorem predict_converts_to_rgb {JS : Number} (s : ObjectDetectionService.t)
    (pipe : ObjectDetectionService.Pipe) (source : HTMLCanvasElement)
    (data : list N) :
  ObjectDetectionService.pipe s = Some pipe ->
  getContext source = Some data ->
  canvas_width source <> 0%N ->
  canvas_height source <> 0%N ->
  let len := N.to_nat (canvas_width source * canvas_height source) in
  exists image : InputImage,
    ObjectDetectionService.predict s source = pipe image
    /\ image_width image = canvas_width source
    /\ image_height image = canvas_height source
    /\ channels image = 3%N
    /\ length (image_data image) = (len * 3)%nat
    /\ (forall p c : nat, (p < len)%nat -> (c < 3)%nat ->
          image_data image !! (p * 3 + c)%nat = Some (element data (p * 4 + c)))
    /\ (forall (p c : nat) (byte : N), (p < len)%nat -> (c < 3)%nat ->
          data !! (p * 4 + c)%nat = Some byte -> (byte < 256)%N ->
          image_data image !! (p * 3 + c)%nat = Some byte)
    /\ (forall data' : list N,
          (forall p c : nat, (p < len)%nat -> (c < 3)%nat ->
             data' !! (p * 4 + c)%nat = data !! (p * 4 + c)%nat) ->
          ObjectDetectionService.predict s (with_data data' source)
          = ObjectDetectionService.predict s source).
Proof.
  intros Hpipe Hctx Hw Hh len.
  assert (Hsize : (canvas_width source =? 0)%N || (canvas_height source =? 0)%N = false).
  { apply orb_false_iff. split; now apply N.eqb_neq. }
  exists {| image_data := toRGB data len; image_width := canvas_width source;
            image_height := canvas_height source; channels := 3 |}.
  split.
  { unfold ObjectDetectionService.predict. now rewrite Hpipe, Hctx, Hsize. }
  split; [reflexivity|]. split; [reflexivity|]. split; [reflexivity|].
  cbn [image_data]. split; [apply length_toRGB|].
  split; [intros p c Hp Hc; now apply lookup_toRGB|]. split.
  - intros p c byte Hp Hc Hbyte Hlt. rewrite lookup_toRGB by assumption.
    unfold element. rewrite Hbyte. cbn. now rewrite N.mod_small.
  - intros data' Hsame. unfold ObjectDetectionService.predict.
    rewrite Hpipe, Hctx. cbn [with_data getContext canvas_width canvas_height].
    rewrite Hsize. fold len. f_equal. f_equal.
    apply (list_eq_pixels _ _ len); try apply length_toRGB.
    intros p c Hp Hc. rewrite !lookup_toRGB by assumption.
    unfold element. now rewrite Hsame.
Qed.

(** A canvas of two pixels: the image has the bytes 1, 2, 3, 5, 6, 7. *)
Lemma predict_converts_to_rgb_witness :
  let source := {| canvas_width := 2; canvas_height := 1;
                   getContext := Some [1; 2; 3; 4; 5; 6; 7; 8]%N |} in
  let s := {| ObjectDetectionService.pipe :=
                Some (fun _ : InputImage =>
                        fulfilled ([] : list (@SegmentedClass Exact.number))) |} in
  exists image : InputImage,
    ObjectDetectionService.predict s source = fulfilled []
    /\ image_data image !! 3%nat = Some 5%N.
Proof.
  intros source s.
  destruct (predict_converts_to_rgb s (fun _ => fulfilled []) source
              [1; 2; 3; 4; 5; 6; 7; 8]%N eq_refl eq_refl)
    as (image & Hrun & _ & _ & _ & _ & _ & Hbytes & _).
  - discriminate.
  - discriminate.
  - exists image. split; [exact Hrun|].
    apply (Hbytes 1%nat 0%nat 5%N); [cbn; lia | lia | reflexivity | reflexivity].
Defined.

(** ** Loading the model *)

Section LoadModel.

Context {JS : Number} {St : Type}.

Lemma fold_progress_callback (onProgress : num -> St -> St)
    (events : list (string * num)) :
  forall st : St,
    fold_left (progress_callback (Some onProgress)) events st
    = fold_left (fun st progress => onProgress progress st) (progress_values events) st.
Proof.
  induction events as [|data events IH]; intros st; [reflexivity|].
  cbn [fold_left progress_callback]. unfold progress_values.
  cbn [omap list_omap]. destruct (String.eqb (fst data) "progress"); apply IH.
Qed.

Lemma fold_progress_callback_None (events : list (string * num)) :
  forall st : St, fold_left (progress_callback None) events st = st.
Proof. induction events as [|data events IH]; intros st; [reflexivity | apply IH]. Qed.

Lemma loadModel_loaded (onProgress : option (num -> St -> St))
    (attempt : Loading ObjectDetectionService.Pipe) (s : ObjectDetectionService.t)
    (st : St) (console : list Console.Call) :
  ObjectDetectionService.pipe s <> None ->
  ObjectDetectionService.loadModel onProgress attempt s st console
  = (s, st, console, fulfilled tt).
Proof.
  intros Hs. unfold ObjectDetectionService.loadModel.
  now destruct (ObjectDetectionService.pipe s).
Qed.

Lemma pipe_loadModel (onProgress : option (num -> St -> St))
    (attempt : Loading ObjectDetectionService.Pipe) (s : ObjectDetectionService.t)
    (st : St) (console : list Console.Call) :
  ObjectDetectionService.pipe
    (fst (fst (fst (ObjectDetectionService.loadModel onProgress attempt s st console))))
  = match ObjectDetectionService.pipe s with
    | Some pipe => Some pipe
    | None => loaded attempt
    end.
Proof.
  unfold ObjectDetectionService.loadModel, loaded.
  destruct (ObjectDetectionService.pipe s) eqn:Hs; [exact Hs|].
  destruct (outcome attempt); [reflexivity | exact Hs].
Qed.

Lemma pipe_loadModels
    (calls : list (option (num -> St -> St) * Loading ObjectDetectionService.Pipe)) :
  forall x : ObjectDetectionService.t * St * list Console.Call,
    ObjectDetectionService.pipe (fst (fst (loadModels calls x)))
    = match ObjectDetectionService.pipe (fst (fst x)) with
      | Some pipe => Some pipe
      | None => head (omap (fun call => loaded (snd call)) calls)
      end.
Proof.
  induction calls as [|call calls IH]; intros x; cbn [loadModels fold_left].
  - now destruct (ObjectDetectionService.pipe (fst (fst x))).
  - change (fold_left _ calls ?y) with (loadModels calls y).
    rewrite IH, pipe_loadModel. cbn [omap list_omap].
    destruct (ObjectDetectionService.pipe (fst (fst x))); [reflexivity|].
    now destruct (loaded (snd call)).
Qed.

End LoadModel.

(** X2. A call of [loadModel] on a service that has its pipeline does
    nothing: no call of [pipeline], of the callback or of the console, and a
    fulfilled promise. On a service with no pipeline, the promise is
    fulfilled when [pipeline] gives one, which the service then keeps, and
    rejected with the error of [pipeline] otherwise, the service staying
    without a pipeline; the callback is called with the progress of the
    events of the status 'progress', in their order. After calls made one
    after another the service has the pipeline it had, or else the first one
    that a call of [pipeline] gave: a pipeline is never replaced. *)
Theorem loadModel_once (JS : Number) (St : Type) :
  (forall (onProgress : option (num -> St -> St))
          (attempt : Loading ObjectDetectionService.Pipe)
          (s : ObjectDetectionService.t) (st : St) (console : list Console.Call),
     ObjectDetectionService.pipe s <> None ->
     ObjectDetectionService.loadModel onProgress attempt s st console
     = (s, st, console, fulfilled tt))
  /\ (forall (onProgress : option (num -> St -> St))
             (attempt : Loading ObjectDetectionService.Pipe)
             (s : ObjectDetectionService.t) (st : St) (console : list Console.Call),
        ObjectDetectionService.pipe s = None ->
        exists (s' : ObjectDetectionService.t) (console' : list Console.Call)
               (result : Promise unit),
          ObjectDetectionService.loadModel onProgress attempt s st console
          = (s', match onProgress with
                 | Some onProgress =>
                     fold_left (fun st progress => onProgress progress st)
                       (progress_values (events attempt)) st
                 | None => st
                 end, console', result)
          /\ ObjectDetectionService.pipe s' = loaded attempt
          /\ match outcome attempt with
             | fulfilled _ => result = fulfilled tt
             | rejected reason => result = rejected reason /\ s' = s
             end)
  /\ (forall (calls : list (option (num -> St -> St)
                            * Loading ObjectDetectionService.Pipe))
             (x : ObjectDetectionService.t * St * list Console.Call),
        ObjectDetectionService.pipe (fst (fst (loadModels calls x)))
        = match ObjectDetectionService.pipe (fst (fst x)) with
          | Some pipe => Some pipe
          | None => head (omap (fun call => loaded (snd call)) calls)
          end).
Proof.
  split; [|split].
  - intros. now apply loadModel_loaded.
  - intros onProgress attempt s st console Hs.
    unfold ObjectDetectionService.loadModel, loaded. rewrite Hs.
    assert (Hst : fold_left (progress_callback onProgress) (events attempt) st
                  = match onProgress with
                    | Some onProgress =>
                        fold_left (fun st progress => onProgress progress st)
                          (progress_values (events attempt)) st
                    | None => st
                    end).
    { destruct onProgress; [apply fold_progress_callback
                           | apply fold_progress_callback_None]. }
    rewrite Hst.
    destruct (outcome attempt) as [pipe | reason]; eexists _, _, _;
      (split; [reflexivity|]); cbn; repeat split; exact Hs.
  - intros. apply pipe_loadModels.
Qed.

(** A service without a pipeline, a failed call and a call that loads. *)
Lemma loadModel_once_witness :
  let pipe : @ObjectDetectionService.Pipe Exact.number := fun _ => fulfilled [] in
  let failing := {| events := []; outcome := rejected "no WebGPU" |} in
  let loading := {| events := []; outcome := fulfilled pipe |} in
  ObjectDetectionService.pipe
    (fst (fst (loadModels (St := unit) [(None, failing); (None, loading); (None, failing)]
                 (ObjectDetectionService.new, tt, []))))
  = Some pipe
  /\ ObjectDetectionService.loadModel (St := unit) None failing
       {| ObjectDetectionService.pipe := Some pipe |} tt []
     = ({| ObjectDetectionService.pipe := Some pipe |}, tt, [], fulfilled tt).
Proof.
  intros pipe failing loading. split.
  - apply (proj2 (proj2 (loadModel_once Exact.number unit))).
  - apply (proj1 (loadModel_once Exact.number unit)). discriminate.
Defined.

(** ** The application *)

(** The statuses of a run of [initModels]. *)
Lemma initModels_run {JS : Number} (attempt : Loading ObjectDetectionService.Pipe)
    (s : ObjectDetectionService.t) (app : App.State) (console : list Console.Call) :
  exists (s' : ObjectDetectionService.t) (app' : App.State)
         (console' : list Console.Call),
    App.initModels attempt s app console = (s', app', console')
    /\ ObjectDetectionService.pipe s'
       = match ObjectDetectionService.pipe s with
         | Some pipe => Some pipe
         | None => loaded attempt
         end
    /\ App.statuses app'
       = App.statuses app
         ++ [loading_at (of_Z 0)]
         ++ match ObjectDetectionService.pipe s with
            | Some _ => []
            | None => map loading_at (progress_values (events attempt))
            end
         ++ [match ObjectDetectionService.pipe s' with
             | Some _ =>
                 {| ModelStatus.status := ModelStatus.ready;
                    ModelStatus.message := None; ModelStatus.progress := None |}
             | None =>
                 {| ModelStatus.status := ModelStatus.error;
                    ModelStatus.message := Some "Initialization Failed."%string;
                    ModelStatus.progress := None |}
             end]
    /\ last (App.statuses app') = Some (App.modelStatus app')
    /\ App.videoSrc app' = App.videoSrc app
    /\ App.showSampleMenu app' = App.showSampleMenu app.
Proof.
  unfold App.initModels, ObjectDetectionService.loadModel, loaded.
  destruct (ObjectDetectionService.pipe s) as [pipe|] eqn:Hs.
  - eexists _, _, _. split; [reflexivity|]. rewrite Hs. cbn.
    repeat split; rewrite <- ?app_assoc; try reflexivity.
    now rewrite !app_assoc, last_snoc.
  - rewrite fold_progress_callback.
    assert (Hfold : forall (values : list num) (app0 : App.State),
              App.statuses
                (fold_left (fun st progress =>
                              App.setModelStatus
                                {| ModelStatus.status := ModelStatus.loading;
                                   ModelStatus.message := None;
                                   ModelStatus.progress := Some progress |} st)
                   values app0)
              = App.statuses app0 ++ map loading_at values
              /\ App.videoSrc (fold_left (fun st progress =>
                              App.setModelStatus
                                {| ModelStatus.status := ModelStatus.loading;
                                   ModelStatus.message := None;
                                   ModelStatus.progress := Some progress |} st)
                   values app0) = App.videoSrc app0
              /\ App.showSampleMenu (fold_left (fun st progress =>
                              App.setModelStatus
                                {| ModelStatus.status := ModelStatus.loading;
                                   ModelStatus.message := None;
                                   ModelStatus.progress := Some progress |} st)
                   values app0) = App.showSampleMenu app0).
    { induction values as [|v values IH]; intros app0; cbn [fold_left map].
      - now rewrite app_nil_r.
      - destruct (IH (App.setModelStatus
                        {| ModelStatus.status := ModelStatus.loading;
                           ModelStatus.message := None;
                           ModelStatus.progress := Some v |} app0))
          as (H1 & H2 & H3).
        rewrite H1, H2, H3. cbn. now rewrite <- app_assoc. }
    match goal with
    | |- context [fold_left ?f ?values ?app0] =>
        destruct (Hfold values app0) as (H1 & H2 & H3);
        set (app1 := fold_left f values app0) in *
    end.
    destruct (outcome attempt) as [pipe | reason]; eexists _, _, _;
      (split; [reflexivity|]); cbn; rewrite ?Hs; cbn; rewrite H1, H2, H3; cbn;
      repeat split; rewrite <- ?app_assoc; try reflexivity;
      now rewrite ?app_assoc, last_snoc.
Qed.

(** X3. [initModels] sets the status to loading with the progress 0, then
    to loading with the progress of each event of the status 'progress' of
    the call of [pipeline] (no event when the service has its pipeline),
    then to ready when the service has a pipeline after it and to error,
    with the message 'Initialization Failed.', when it has none. So the
    status is ready exactly when the service has a pipeline, and [predict]
    on a service of a ready status is not rejected for a model that is not
    loaded. The source of the video and the menu are left as they are. *)
Theorem initModels_status {JS : Number}
    (attempt : Loading ObjectDetectionService.Pipe)
    (s : ObjectDetectionService.t) (app : App.State) (console : list Console.Call) :
  exists (s' : ObjectDetectionService.t) (app' : App.State)
         (console' : list Console.Call),
    App.initModels attempt s app console = (s', app', console')
    /\ App.statuses app'
       = App.statuses app
         ++ [loading_at (of_Z 0)]
         ++ match ObjectDetectionService.pipe s with
            | Some _ => []
            | None => map loading_at (progress_values (events attempt))
            end
         ++ [App.modelStatus app']
    /\ (ModelStatus.is_ready (App.modelStatus app') = true
        <-> ObjectDetectionService.pipe s' <> None)
    /\ (ModelStatus.is_ready (App.modelStatus app') = false ->
        App.modelStatus app'
        = {| ModelStatus.status := ModelStatus.error;
             ModelStatus.message := Some "Initialization Failed."%string;
             ModelStatus.progress := None |}
        /\ ObjectDetectionService.pipe s = None
        /\ loaded attempt = None)
    /\ App.videoSrc app' = App.videoSrc app
    /\ App.showSampleMenu app' = App.showSampleMenu app.
Proof.
  destruct (initModels_run attempt s app console)
    as (s' & app' & console' & Hrun & Hpipe & Hstatuses & Hlast & Hsrc & Hmenu).
  exists s', app', console'. split; [exact Hrun|].
  assert (Hfinal : App.modelStatus app'
                   = match ObjectDetectionService.pipe s' with
                     | Some _ =>
                         {| ModelStatus.status := ModelStatus.ready;
                            ModelStatus.message := None;
                            ModelStatus.progress := None |}
                     | None =>
                         {| ModelStatus.status := ModelStatus.error;
                            ModelStatus.message := Some "Initialization Failed."%string;
                            ModelStatus.progress := None |}
                     end).
  { rewrite Hstatuses, !app_assoc, last_snoc in Hlast. now injection Hlast. }
  split; [now rewrite Hfinal|]. split; [|split; [|split; assumption]].
  - rewrite Hfinal. destruct (ObjectDetectionService.pipe s'); cbn; split;
      congruence.
  - rewrite Hfinal. destruct (ObjectDetectionService.pipe s') eqn:Hs'; cbn;
      [discriminate|]. intros _. split; [reflexivity|].
    destruct (ObjectDetectionService.pipe s); [discriminate|]. now split.
Qed.

(** The status is an error, with no pipeline, when [pipeline] fails. *)
Lemma initModels_status_witness :
  exists (s' : ObjectDetectionService.t) (app' : App.State),
    fst (App.initModels (JS := Exact.number)
           {| events := [("progress"%string, fin 50)]; outcome := rejected "no WebGPU" |}
           ObjectDetectionService.new
           {| App.videoSrc := None; App.modelStatus := model_ready;
              App.showSampleMenu := false; App.statuses := [] |} [])
    = (s', app')
    /\ ModelStatus.status (App.modelStatus app') = ModelStatus.error
    /\ ObjectDetectionService.pipe s' = None.
Proof.
  destruct (initModels_status (JS := Exact.number)
              {| events := [("progress"%string, fin 50)]; outcome := rejected "no WebGPU" |}
              ObjectDetectionService.new
              {| App.videoSrc := None; App.modelStatus := model_ready;
                 App.showSampleMenu := false; App.statuses := [] |} [])
    as (s' & app' & console' & Hrun & _ & Hready & Herror & _).
  exists s', app'. rewrite Hrun. split; [reflexivity|].
  assert (Hs' : ObjectDetectionService.pipe s' = None).
  { cbn in Hrun. now injection Hrun as <- _ _. }
  split; [|exact Hs'].
  destruct (ModelStatus.is_ready (App.modelStatus app')) eqn:Hr.
  - exfalso. now apply (proj1 Hready).
  - now rewrite (proj1 (Herror eq_refl)).
Defined.

(** ** The triggers of the analysis *)

Section Triggers.

Context {JS : Number}.
Variable predict : num -> option (list SegmentedClass).
Variable fuel : nat.

Lemma trigger_event_triggered (e : TriggerEvent) (c : Component) :
  analysisTriggeredRef c = true -> trigger_event predict fuel e c = Some c.
Proof.
  intros Hc. destruct e; cbn [trigger_event];
    unfold handleVideoLoaded, modelReadyEffect; rewrite Hc; cbn [negb];
    now rewrite ?andb_false_r.
Qed.

Lemma trigger_events_triggered (events : list TriggerEvent) (c : Component) :
  analysisTriggeredRef c = true -> trigger_events predict fuel events c = Some c.
Proof.
  intros Hc. induction events as [|e events IH]; cbn [trigger_events]; [reflexivity|].
  now rewrite trigger_event_triggered.
Qed.

Lemma trigger_event_cases (e : TriggerEvent) (c : Component) :
  trigger_event predict fuel e c = Some c
  \/ exists closure_isPlaying play_resolves : bool,
       analysisTriggeredRef c = false
       /\ trigger_event predict fuel e c
          = trigger predict fuel closure_isPlaying play_resolves c.
Proof.
  destruct e as [m st ci pr | m rs st ci pr]; cbn [trigger_event];
    unfold handleVideoLoaded, modelReadyEffect.
  - destruct (ModelStatus.is_ready m && negb (analysisTriggeredRef c) && is_idle st)
      eqn:Hfire; [|now left].
    right. exists ci, pr. split; [|reflexivity].
    apply andb_prop in Hfire as [Hfire _]. apply andb_prop in Hfire as [_ Hfire].
    now apply negb_true_iff.
  - destruct (ModelStatus.is_ready m
              && bool_decide (is_Some (visibleVideoRef (world c)))
              && (1 <=? rs)%N && negb (analysisTriggeredRef c) && is_idle st)
      eqn:Hfire; [|now left].
    right. exists ci, pr. split; [|reflexivity].
    apply andb_prop in Hfire as [Hfire _]. apply andb_prop in Hfire as [_ Hfire].
    now apply negb_true_iff.
Qed.

Lemma trigger_triggered (closure_isPlaying play_resolves : bool) (c c' : Component) :
  trigger predict fuel closure_isPlaying play_resolves c = Some c' ->
  analysisTriggeredRef c' = true.
Proof.
  unfold trigger. destruct (startAnalysis _ _ _ _ _); [|discriminate].
  cbn. now intros [= <-].
Qed.

End Triggers.

(** X4. The analysis is started once: on a component whose
    [analysisTriggeredRef] is set, the handler of [loadeddata] and the
    effect on the status of the model do nothing, whatever the status of
    the model, the state of the analysis and the video are. So of the events
    of a sequence at most one starts a pass, and the sequence leaves what
    that one pass leaves, the ref set. The handler starts a pass only with a
    model that is ready, the ref not set, and the state idle. *)
Theorem analysis_triggered_once {JS : Number}
    (predict : num -> option (list SegmentedClass)) (fuel : nat) :
  (forall (events : list TriggerEvent) (c : Component),
     analysisTriggeredRef c = true ->
     trigger_events predict fuel events c = Some c)
  /\ (forall (events : list TriggerEvent) (c c' : Component),
        trigger_events predict fuel events c = Some c' ->
        c' = c
        \/ exists closure_isPlaying play_resolves : bool,
             analysisTriggeredRef c = false
             /\ analysisTriggeredRef c' = true
             /\ trigger predict fuel closure_isPlaying play_resolves c = Some c')
  /\ (forall (modelStatus : ModelStatus.t) (closure_analysisStatus : AnalysisStatus)
             (closure_isPlaying play_resolves : bool) (c : Component),
        handleVideoLoaded predict modelStatus closure_analysisStatus fuel
          closure_isPlaying play_resolves c <> Some c ->
        ModelStatus.status modelStatus = ModelStatus.ready
        /\ analysisTriggeredRef c = false
        /\ closure_analysisStatus = idle).
Proof.
  split; [|split].
  - intros. now apply trigger_events_triggered.
  - intros events. induction events as [|e events IH]; intros c c' Hrun;
      cbn [trigger_events] in Hrun.
    + left. now injection Hrun.
    + destruct (trigger_event_cases predict fuel e c) as [Hsame | (ci & pr & Hc & Hfire)].
      * rewrite Hsame in Hrun. now apply IH.
      * rewrite Hfire in Hrun.
        destruct (trigger predict fuel ci pr c) as [c1|] eqn:Hc1; [|discriminate].
        pose proof (trigger_triggered predict fuel ci pr c c1 Hc1) as Ht.
        rewrite (trigger_events_triggered predict fuel events c1 Ht) in Hrun.
        injection Hrun as <-. right. exists ci, pr. now repeat split.
  - intros m st ci pr c. unfold handleVideoLoaded, ModelStatus.is_ready, is_idle.
    destruct (ModelStatus.status m), (analysisTriggeredRef c), st; cbn;
      try congruence. now repeat split.
Qed.

(** Two events on a component whose ref is set: nothing is done. *)
Lemma analysis_triggered_once_witness :
  let c := {| world := example_world (JS := Exact.number)
                         (example_video (fin 1) (fin 0) true);
              analysisTriggeredRef := true |} in
  trigger_events (fun _ => Some []) 77
    [loadeddata model_ready idle false true;
     model_status_changed model_ready 4 idle false true] c
  = Some c.
Proof.
  intros c. apply (proj1 (analysis_triggered_once (fun _ => Some []) 77)).
  reflexivity.
Defined.

(** X5. With a video whose duration is 0 or not a number, or with no video
    element, the handler of [loadeddata] sets [analysisTriggeredRef] and
    starts nothing: the state and the trace are as they were. The ref being
    set, no later event starts the analysis, whatever the video has become
    by then. *)
Theorem trigger_consumed_without_duration {JS : Number}
    (predict : num -> option (list SegmentedClass)) (fuel : nat)
    (closure_isPlaying play_resolves : bool) (c : Component) :
  analysisTriggeredRef c = false ->
  (forall video : HTMLVideoElement,
     visibleVideoRef (world c) = Some video -> truthy (duration video) = false) ->
  handleVideoLoaded predict model_ready idle fuel closure_isPlaying play_resolves c
  = Some {| world := world c; analysisTriggeredRef := true |}
  /\ forall (video : HTMLVideoElement) (events : list TriggerEvent),
       trigger_events predict fuel events
         {| world := set_video video (world c); analysisTriggeredRef := true |}
       = Some {| world := set_video video (world c); analysisTriggeredRef := true |}.
Proof.
  intros Hc Hd. split.
  - unfold handleVideoLoaded, trigger, startAnalysis. rewrite Hc. cbn.
    destruct (visibleVideoRef (world c)) as [video|] eqn:Hv; [|reflexivity].
    now rewrite (Hd video eq_refl).
  - intros video events. now apply trigger_events_triggered.
Qed.

(** The event on a video whose duration is 0 yet, and a later event when
    the duration is 1 s. *)
Lemma trigger_consumed_without_duration_witness :
  let c := {| world := example_world (JS := Exact.number)
                         (example_video (fin 0) (fin 0) true);
              analysisTriggeredRef := false |} in
  handleVideoLoaded (fun _ => Some []) model_ready idle 77 false true c
  = Some {| world := world c; analysisTriggeredRef := true |}
  /\ trigger_events (fun _ => Some []) 77 [loadeddata model_ready idle false true]
       {| world := set_video (example_video (fin 1) (fin 0) true) (world c);
          analysisTriggeredRef := true |}
     = Some {| world := set_video (example_video (fin 1) (fin 0) true) (world c);
               analysisTriggeredRef := true |}.
Proof.
  intros c.
  destruct (trigger_consumed_without_duration (fun _ => Some []) 77 false true c
              eq_refl) as [Hfirst Hlater].
  - intros video [= <-]. reflexivity.
  - split; [exact Hfirst | apply Hlater].
Defined.

(** ** The reset on a new source *)




(** ** The frames a pass captures *)

Section Captures.

Context {JS : Number}.
Variable predict : num -> option (list SegmentedClass).
Variables effectiveDuration steps cropY vw cropHeight segHeight : num.

Local Abbreviation steps_from n k := (sampling_steps predict n k effectiveDuration steps
                                    cropY vw cropHeight segHeight).
Local Abbreviation effects_at i := (step_effects predict effectiveDuration steps cropY vw
                                   cropHeight segHeight (sample_time i) (frame_count i)).
Local Abbreviation limit := (add effectiveDuration (decimal 1 1)).




End Captures.

Section Seeks.

Context {JS : Number}.
Variable predict : num -> option (list SegmentedClass).
Variables effectiveDuration steps cropY vw cropHeight segHeight : num.

Local Abbreviation effects_at i := (step_effects predict effectiveDuration steps cropY vw
                                   cropHeight segHeight (sample_time i) (frame_count i)).
Local Abbreviation limit := (add effectiveDuration (decimal 1 1)).


End Seeks.

(** ** A pass in exact arithmetic, effect by effect *)








(** ** The video is where the frame is said to be from *)

Section Position.

Context {JS : Number}.
Variable predict : num -> option (list SegmentedClass).
Variables effectiveDuration steps cropY vw cropHeight segHeight : num.

Local Abbreviation limit := (add effectiveDuration (decimal 1 1)).



End Position.




(** ** How near the frame shown is *)





(** ** Where the progress ends *)






(** ** The size of a pass *)





(** ** What playback leaves as it is *)

Section PlaybackState.

Context {JS : Number}.

Lemma playbackLoop_progress (w : World) : progress (playbackLoop w) = progress w.
Proof.
  unfold playbackLoop.
  destruct (visibleVideoRef w) as [video|] eqn:Hv; [|reflexivity].
  destruct (paused video || ended video); [reflexivity|].
  destruct (leb MAX_DEMO_DURATION (currentTime video)); [now simpl_world|].
  match goal with
  | |- context [requestAnimationFrame ?w0] =>
      assert (Hr : session w0 = session w)
  end.
  { destruct (closestFrame _ _) as [frame|]; [|reflexivity].
    destruct (overlayCanvasRef w); [|reflexivity].
    apply renderSegmentationOverlay_session. }
  unfold session in Hr. injection Hr as _ _ _ _ _ Hp. exact Hp.
Qed.

Lemma togglePlay_progress (closure_isPlaying play_resolves : bool) (w : World) :
  progress (togglePlay closure_isPlaying play_resolves w) = progress w.
Proof.
  unfold togglePlay. destruct (visibleVideoRef w) as [video|] eqn:Hv; [|reflexivity].
  destruct closure_isPlaying; [|destruct play_resolves].
  - simpl_world. destruct (requestRef w); now simpl_world.
  - rewrite playbackLoop_progress. now simpl_world.
  - reflexivity.
Qed.

Lemma playback_event_state (w : World) (e : PlaybackEvent) :
  extends w (playback_event w e)
  /\ cacheRef (playback_event w e) = cacheRef w
  /\ analysisStatus (playback_event w e) = analysisStatus w
  /\ progress (playback_event w e) = progress w.
Proof.
  destruct e as [|closure_isPlaying play_resolves]; cbn [playback_event].
  - destruct (playbackLoop_extends w) as (He & Hc & Ha).
    repeat split; try assumption. apply playbackLoop_progress.
  - destruct (togglePlay_extends closure_isPlaying play_resolves w) as (He & Hc & Ha).
    repeat split; try assumption. apply togglePlay_progress.
Qed.

End PlaybackState.

(** X12. Playback leaves the analysis as it is: whatever frame callbacks
    run and however the play button is used, with whatever state of
    [isPlaying] its handler has and whether the video starts or not, the
    cache, the state of the analysis and the progress stay as they are, and
    no frame is captured, no prediction asked for and no progress
    reported. *)
Theorem playback_leaves_analysis {JS : Number} (events : list PlaybackEvent)
    (w : World) :
  cacheRef (fold_left playback_event events w) = cacheRef w
  /\ analysisStatus (fold_left playback_event events w) = analysisStatus w
  /\ progress (fold_left playback_event events w) = progress w
  /\ exists effects : list Effect,
       trace (fold_left playback_event events w) = trace w ++ effects
       /\ forallb (fun e => negb (is_sampling e)) effects = true.
Proof.
  revert w. induction events as [|e events IH]; intros w; cbn [fold_left].
  - repeat split. exists []. now rewrite app_nil_r.
  - destruct (playback_event_state w e) as (He & Hc & Ha & Hp).
    destruct (IH (playback_event w e)) as (Hc' & Ha' & Hp' & He').
    rewrite Hc', Ha', Hp'. repeat split; try assumption.
    apply (extends_trans _ _ _ He He').
Qed.

(** ** What the overlay holds after a render *)

Section OverlayContent.

Context {JS : Number}.

Lemma drawMaskToContext_overlay (mask : option RawImage) (color : Color)
    (x y tw th : num) (w : World) (canvas : OverlayCanvas) (helper : HelperCanvas) :
  overlayCanvasRef w = Some canvas ->
  maskHelperCanvasRef w = Some helper ->
  exists (canvas' : OverlayCanvas) (helper' : HelperCanvas),
    overlayCanvasRef (drawMaskToContext mask color x y tw th w) = Some canvas'
    /\ maskHelperCanvasRef (drawMaskToContext mask color x y tw th w) = Some helper'
    /\ drawn canvas'
       = drawn canvas
         ++ match mask with
            | Some mask =>
                [{| source := fill_mask color (data mask) 0
                                (createImageData (width mask) (height mask));
                    sw := Npos (width mask); sh := Npos (height mask);
                    dx := x; dy := y; dw := tw; dh := th;
                    imageSmoothingEnabled := false |}]
            | None => []
            end.
Proof.
  intros Hc Hh. unfold drawMaskToContext.
  destruct mask as [mask|];
    [|exists canvas, helper; now rewrite app_nil_r].
  rewrite Hh.
  destruct (negb _ || negb _); cbn; rewrite Hc; cbn;
    eexists _, _; (split; [reflexivity|]); (split; [reflexivity|]); reflexivity.
Qed.

Lemma fold_overlay_item_overlay (ox oy ow oh : num) (results : list SegmentedClass) :
  forall (found : list string) (w : World) (canvas : OverlayCanvas)
         (helper : HelperCanvas),
    overlayCanvasRef w = Some canvas ->
    maskHelperCanvasRef w = Some helper ->
    exists canvas' : OverlayCanvas,
      overlayCanvasRef (snd (fold_left (overlay_item ox oy ow oh) results (found, w)))
      = Some canvas'
      /\ drawn canvas' = drawn canvas ++ omap (mask_draw ox oy ow oh) results.
Proof.
  induction results as [|item results IH]; intros found w canvas helper Hc Hh;
    cbn [fold_left omap list_omap].
  - exists canvas. now rewrite app_nil_r.
  - unfold overlay_item at 2. unfold mask_draw at 1.
    destruct (colorMapping item) as [[color class]|]; [|now apply (IH _ _ _ helper)].
    destruct (drawMaskToContext_overlay (mask item) color ox oy ow oh w canvas helper
                Hc Hh) as (c1 & h1 & Hc1 & Hh1 & Hd1).
    destruct (IH (Set_add class found) _ c1 h1 Hc1 Hh1) as (c2 & Hc2 & Hd2).
    exists c2. split; [exact Hc2|]. rewrite Hd2, Hd1, <- app_assoc.
    now destruct (mask item).
Qed.

End OverlayContent.

(** X13. After a render, on a component with its overlay and its helper
    canvas and a video with sides that are not 0, the overlay holds one
    image for each result that has a colour and a mask, in the order of the
    results, and nothing else: the stencil of the mask in the colour of the
    class, stretched onto the cropped part of the display area without
    smoothing. What an earlier render drew is gone. *)
Theorem overlay_content {JS : Number} (results : list SegmentedClass)
    (video : HTMLVideoElement) (cropPercent : num) (w : World)
    (canvas : OverlayCanvas) (helper : HelperCanvas) :
  overlayCanvasRef w = Some canvas ->
  maskHelperCanvasRef w = Some helper ->
  truthy (videoWidth video) = true ->
  truthy (videoHeight video) = true ->
  forall displayedW displayedH offsetX offsetY : num,
    computeDisplayRect (clientWidth video) (clientHeight video)
      (videoWidth video) (videoHeight video)
    = (displayedW, displayedH, offsetX, offsetY) ->
    option_map drawn
      (overlayCanvasRef (renderSegmentationOverlay results video cropPercent w))
    = Some (omap (mask_draw offsetX (add offsetY (mul displayedH cropPercent))
                    displayedW (mul displayedH (sub (of_Z 1) cropPercent)))
              results).
Proof.
  intros Hc Hh Hw Hv displayedW displayedH offsetX offsetY Hrect.
  unfold renderSegmentationOverlay. rewrite Hc, Hw, Hv, Hrect. cbn [negb orb].
  match goal with
  | |- context [fold_left (overlay_item ?a ?b ?c ?d) results ([], ?w0)] =>
      destruct (fold_overlay_item_overlay a b c d results [] w0
                  {| overlay_width := overlay_width
                       (if negb (eqb (overlay_width canvas) (clientWidth video))
                           || negb (eqb (overlay_height canvas) (clientHeight video))
                        then {| overlay_width := clientWidth video;
                                overlay_height := clientHeight video; drawn := [] |}
                        else canvas);
                     overlay_height := overlay_height
                       (if negb (eqb (overlay_width canvas) (clientWidth video))
                           || negb (eqb (overlay_height canvas) (clientHeight video))
                        then {| overlay_width := clientWidth video;
                                overlay_height := clientHeight video; drawn := [] |}
                        else canvas);
                     drawn := [] |} helper eq_refl Hh)
        as (canvas' & Hc' & Hd);
      destruct (fold_left (overlay_item a b c d) results ([], w0)) as [found w1]
  end.
  cbn [snd] in Hc'. cbn. rewrite Hc'. cbn. now rewrite Hd.
Qed.

(** A render of a traffic light and a pedestrian: the one image of the
    traffic light. *)
Lemma overlay_content_witness :
  let video := example_video (JS := Binary64.number) (of_Z 1) (of_Z 0) false in
  let w := renderSegmentationOverlay
             [example_item "Traffic Light"; example_item "pedestrian"] video
             CROP_PERCENT (example_world video) in
  exists draws : list DrawImage,
    option_map drawn (overlayCanvasRef w) = Some draws
    /\ map source draws = [[0; 0; 0; 0; 255; 230; 0; 200]%N].
Proof.
  intros video w. eexists. split.
  - apply (overlay_content
             [example_item "Traffic Light"; example_item "pedestrian"] video
             CROP_PERCENT (example_world video)
             _ _ eq_refl eq_refl eq_refl eq_refl _ _ _ _ eq_refl).
  - reflexivity.
Defined.

(** ** Pausing *)

Section Pause.

Context {JS : Number}.

Lemma playbackLoop_video (w : World) (video : HTMLVideoElement) :
  visibleVideoRef w = Some video ->
  exists video' : HTMLVideoElement, visibleVideoRef (playbackLoop w) = Some video'.
Proof.
  intros Hv. unfold playbackLoop. rewrite Hv.
  destruct (paused video || ended video); [now exists video|].
  destruct (leb MAX_DEMO_DURATION (currentTime video)).
  - simpl_world. rewrite Hv. now eexists.
  - match goal with
    | |- context [requestAnimationFrame ?w0] =>
        assert (Hr : session w0 = session w)
    end.
    { destruct (closestFrame _ _) as [frame|]; [|reflexivity].
      destruct (overlayCanvasRef w); [|reflexivity].
      apply renderSegmentationOverlay_session. }
    unfold session in Hr. injection Hr as Hvideo _ _ _ _ _.
    exists video. cbn. now rewrite Hvideo.
Qed.

Lemma togglePlay_pause (play_resolves : bool) (w : World) (video : HTMLVideoElement) :
  visibleVideoRef w = Some video ->
  visibleVideoRef (togglePlay true play_resolves w) = Some (with_paused true video)
  /\ isPlaying (togglePlay true play_resolves w) = false
  /\ overlayCanvasRef (togglePlay true play_resolves w) = overlayCanvasRef w
  /\ trace (togglePlay true play_resolves w)
     = trace w ++ [video_pause; setIsPlaying_ false]
       ++ (if requestRef w then [cancelAnimationFrame_] else []).
Proof.
  intros Hv. unfold togglePlay. rewrite Hv. simpl_world.
  destruct (requestRef w); simpl_world; rewrite Hv; cbn;
    rewrite <- ?app_assoc; repeat split; now rewrite ?app_nil_r.
Qed.

End Pause.

(** X14. The play button of a render in which the video plays pauses the
    video, sets [isPlaying] to false and cancels the frame that was
    requested, if there is one; the overlay is left as it was drawn. A frame
    callback that still runs after it draws nothing and requests no frame: it
    only sets [isPlaying] to false again. So does the pause that follows a
    start of the video by the same button. *)
Theorem pause_stops_playback {JS : Number} (play_resolves : bool) (w : World)
    (video : HTMLVideoElement) :
  visibleVideoRef w = Some video ->
  (visibleVideoRef (togglePlay true play_resolves w) = Some (with_paused true video)
   /\ isPlaying (togglePlay true play_resolves w) = false
   /\ overlayCanvasRef (togglePlay true play_resolves w) = overlayCanvasRef w
   /\ trace (togglePlay true play_resolves w)
      = trace w ++ [video_pause; setIsPlaying_ false]
        ++ (if requestRef w then [cancelAnimationFrame_] else []))
  /\ playbackLoop (togglePlay true play_resolves w)
     = setIsPlaying false (togglePlay true play_resolves w)
  /\ (exists started : HTMLVideoElement,
        visibleVideoRef (togglePlay false true w) = Some started
        /\ visibleVideoRef (togglePlay true play_resolves (togglePlay false true w))
           = Some (with_paused true started)
        /\ isPlaying (togglePlay true play_resolves (togglePlay false true w)) = false).
Proof.
  intros Hv.
  destruct (togglePlay_pause play_resolves w video Hv) as (Hvideo & Hplaying & Ho & Ht).
  split; [now repeat split|]. split.
  - unfold playbackLoop. now rewrite Hvideo.
  - assert (Hstarted : exists started : HTMLVideoElement,
              visibleVideoRef (togglePlay false true w) = Some started).
    { unfold togglePlay. rewrite Hv.
      eapply playbackLoop_video. simpl_world. now rewrite Hv. }
    destruct Hstarted as (started & Hs). exists started. split; [exact Hs|].
    destruct (togglePlay_pause play_resolves _ started Hs) as (H1 & H2 & _).
    now split.
Qed.

(** The pause of the example video while it plays, a frame requested. *)
Lemma pause_stops_playback_witness :
  let w := set_request true
             (example_world (JS := Binary64.number)
                (example_video (of_Z 1) (decimal 5 1) false)) in
  trace (togglePlay true false w)
  = [video_pause; setIsPlaying_ false; cancelAnimationFrame_]
  /\ trace (playbackLoop (togglePlay true false w))
     = [video_pause; setIsPlaying_ false; cancelAnimationFrame_; setIsPlaying_ false].
Proof.
  intros w.
  destruct (pause_stops_playback false w (example_video (of_Z 1) (decimal 5 1) false)
              eq_refl) as ((_ & _ & _ & Htrace) & Hstop & _).
  split; [exact Htrace|]. rewrite Hstop. cbn [trace setIsPlaying emit].
  now rewrite Htrace.
Defined.

(** ** A pass with a service that cannot answer *)





(** ** The overlay and the crop *)




(** ** The depth service *)

(** X17. [loadModel] of the depth service tries WebGPU and, when that
    fails, WASM: the promise is fulfilled when either call of [pipeline]
    gives a pipeline, and the service keeps the one of WebGPU if there is
    one, else the one of WASM. The second call is made only after the first
    has failed: when WebGPU loads, the callback gets the progress of its
    events only. When both fail the promise is rejected with the error of
    WASM, the one of WebGPU being only a warning, and the service stays
    without a pipeline. A service with a pipeline is left as it is. *)
Theorem depth_loadModel_fallback (JS : Number) (Result St : Type)
    (onProgress : num -> St -> St)
    (webgpu wasm : Loading (@DepthService.Pipe Result))
    (s : DepthService.t) (st : St) (console : list Console.Call) :
  exists (s' : DepthService.t) (st' : St) (console' : list Console.Call)
         (result : Promise unit),
    DepthService.loadModel (Some onProgress) webgpu wasm s st console
    = (s', st', console', result)
    /\ DepthService.pipe s'
       = match DepthService.pipe s, loaded webgpu with
         | Some pipe, _ => Some pipe
         | None, Some pipe => Some pipe
         | None, None => loaded wasm
         end
    /\ (result = fulfilled tt <-> DepthService.pipe s' <> None)
    /\ (DepthService.pipe s' = None ->
        exists error : string, outcome wasm = rejected error /\ result = rejected error)
    /\ st' = match DepthService.pipe s, loaded webgpu with
             | Some _, _ => st
             | None, Some _ =>
                 fold_left (fun st progress => onProgress progress st)
                   (progress_values (events webgpu)) st
             | None, None =>
                 fold_left (fun st progress => onProgress progress st)
                   (progress_values (events webgpu ++ events wasm)) st
             end.
Proof.
  unfold DepthService.loadModel, loaded.
  destruct (DepthService.pipe s) as [pipe|] eqn:Hs.
  - eexists _, _, _, _. split; [reflexivity|]. rewrite Hs.
    repeat split; try congruence.
  - rewrite !fold_progress_callback.
    destruct (outcome webgpu) as [pipe | reason].
    + eexists _, _, _, _. split; [reflexivity|]. cbn. repeat split; congruence.
    + destruct (outcome wasm) as [pipe | error]; eexists _, _, _, _;
        (split; [reflexivity|]); cbn; rewrite ?Hs;
        (split; [reflexivity|]); (split; [split; congruence|]);
        (split; [try discriminate; intros _; now exists error|]);
        unfold progress_values; now rewrite omap_app, fold_left_app.
Qed.

(** WebGPU fails and WASM loads: the pipeline of WASM, and the progress
    of the events of both. *)
Lemma depth_loadModel_fallback_witness :
  let pipe : @DepthService.Pipe unit := fun _ => fulfilled tt in
  exists (s' : DepthService.t) (console' : list Console.Call),
    DepthService.loadModel (JS := Exact.number)
      (Some (fun progress st => st ++ [progress]))
      {| events := [("progress"%string, fin 10)]; outcome := rejected "no WebGPU" |}
      {| events := [("done"%string, fin 0); ("progress"%string, fin 90)];
         outcome := fulfilled pipe |}
      DepthService.new [] []
    = (s', [fin 10; fin 90], console', fulfilled tt)
    /\ DepthService.pipe s' = Some pipe.
Proof.
  intros pipe.
  destruct (depth_loadModel_fallback Exact.number unit (list (@num Exact.number))
              (fun progress st => st ++ [progress])
              {| events := [("progress"%string, fin 10)];
                 outcome := rejected "no WebGPU" |}
              {| events := [("done"%string, fin 0); ("progress"%string, fin 90)];
                 outcome := fulfilled pipe |}
              DepthService.new [] [])
    as (s' & st' & console' & result & Hrun & Hpipe & Hresult & _ & Hst).
  exists s', console'. split; [|exact Hpipe].
  rewrite Hrun, Hst. f_equal.
  apply Hresult. rewrite Hpipe. discriminate.
Defined.

(** ** The timeline *)

(** X18. The bar [i] of the timeline is lit at a progress [p] exactly when
    [104 i < 25 p], that is [4.16 i < p]: in exact arithmetic for every
    integer [p], and in binary64 for every progress from 0 to 100 that a
    pass can report. So the lit bars are the first ones, none is lit at 0,
    and the 24 bars are all lit exactly from the progress 96 on. *)
Theorem timeline_bars :
  (forall p i : Z, bar_lit (JS := Exact.number) (of_Z p) i = (104 * i <? 25 * p)%Z)
  /\ forallb (fun p =>
                forallb (fun i =>
                           Bool.eqb (bar_lit (JS := Binary64.number)
                                       (of_Z (Z.of_nat p)) (Z.of_nat i))
                             (104 * Z.of_nat i <? 25 * Z.of_nat p)%Z)
                  (seq 0 24))
       (seq 0 101) = true
  /\ (forall p : Z,
        timeline (JS := Exact.number) (of_Z p) = replicate 24 true <-> (96 <= p)%Z)
  /\ (forall p i j : Z,
        (0 <= i <= j)%Z ->
        bar_lit (JS := Exact.number) (of_Z p) j = true ->
        bar_lit (JS := Exact.number) (of_Z p) i = true).
Proof.
  assert (Hlit : forall p i : Z,
            bar_lit (JS := Exact.number) (of_Z p) i = (104 * i <? 25 * p)%Z).
  { intros p i. unfold bar_lit.
    change (decimal (JS := Exact.number) 416 2) with (fin (inject_Z 416 / inject_Z 100)).
    unfold fin.
    cbn [ltb div of_Z Exact.number Exact.xdiv Exact.xltb].
    change (Exact.Qsign (inject_Z 416 / inject_Z 100)) with (Some false).
    cbn [Exact.xltb].
    destruct (Z.ltb_spec (104 * i) (25 * p)) as [Hlt | Hge].
    - apply negb_true_iff, not_true_iff_false. rewrite Qle_bool_iff.
      apply Qlt_not_le.
      apply Qlt_shift_div_l; [reflexivity|].
      rewrite Zlt_Qlt, !inject_Z_mult in Hlt.
      change (inject_Z 104) with 104%Q in Hlt. change (inject_Z 25) with 25%Q in Hlt.
      assert (Hc : (inject_Z 416 / inject_Z 100 == 104 # 25)%Q) by reflexivity.
      rewrite Hc. lra.
    - apply negb_false_iff. rewrite Qle_bool_iff.
      apply Qle_shift_div_r; [reflexivity|].
      rewrite Zle_Qle, !inject_Z_mult in Hge.
      change (inject_Z 104) with 104%Q in Hge. change (inject_Z 25) with 25%Q in Hge.
      assert (Hc : (inject_Z 416 / inject_Z 100 == 104 # 25)%Q) by reflexivity.
      rewrite Hc. lra. }
  split; [exact Hlit|]. split; [vm_compute; reflexivity|]. split.
  - intros p. unfold timeline. split.
    + intros Hall.
      assert (H23 : bar_lit (JS := Exact.number) (of_Z p) 23 = true).
      { apply (f_equal (fun l => l !! 23%nat)) in Hall.
        rewrite list_lookup_fmap, lookup_seq_lt, lookup_replicate_2 in Hall by lia.
        cbn [fmap option_fmap option_map Nat.add] in Hall.
        change (Z.of_nat 23) with 23%Z in Hall. congruence. }
      rewrite Hlit in H23. apply Z.ltb_lt in H23. lia.
    + intros Hp. apply list_eq. intros k.
      rewrite list_lookup_fmap.
      destruct (Nat.lt_ge_cases k 24) as [Hk | Hk].
      * rewrite lookup_seq_lt, lookup_replicate_2 by exact Hk.
        cbn [fmap option_fmap option_map Nat.add].
        rewrite Hlit. f_equal. apply Z.ltb_lt. lia.
      * rewrite lookup_seq_ge by lia. symmetry. apply lookup_ge_None_2.
        rewrite length_replicate. exact Hk.
  - intros p i j Hij. rewrite !Hlit. intros Hj.
    apply Z.ltb_lt in Hj. apply Z.ltb_lt. lia.
Qed.

(** At the progress 86 the bars up to the 21st are lit, and the 22nd is
    not; at 100 the timeline is full. *)
Lemma timeline_bars_witness :
  bar_lit (JS := Exact.number) (of_Z 86) 10 = true
  /\ bar_lit (JS := Exact.number) (of_Z 86) 21 = false
  /\ timeline (JS := Exact.number) (of_Z 100) = replicate 24 true.
Proof.
  split; [|split].
  - apply (proj2 (proj2 (proj2 timeline_bars)) 86 10 20); [lia|].
    now rewrite (proj1 timeline_bars).
  - now rewrite (proj1 timeline_bars).
  - apply (proj1 (proj2 (proj2 timeline_bars)) 100). lia.
Defined.

(** ** The classes a render reports *)

Section Classes.

Context {JS : Number}.

Lemma NoDup_Set_add (x : string) (s : list string) : NoDup s -> NoDup (Set_add x s).
Proof.
  intros Hs. unfold Set_add. destruct (includes s x) eqn:Hx; [exact Hs|].
  apply NoDup_app. split; [exact Hs|]. split; [|apply NoDup_singleton].
  intros y Hy Hyx. apply list_elem_of_singleton in Hyx as ->.
  apply list_elem_of_In, includes_spec in Hy. congruence.
Qed.

Lemma fold_add_class_NoDup (results : list SegmentedClass) :
  forall found : list string,
    NoDup found -> NoDup (fold_left add_class results found).
Proof.
  induction results as [|item results IH]; intros found Hfound; [exact Hfound|].
  cbn [fold_left]. apply IH. unfold add_class.
  destruct (colorMapping item) as [[color class]|];
    [now apply NoDup_Set_add | exact Hfound].
Qed.

Lemma fold_add_class_head (results : list SegmentedClass) :
  forall found : list string,
    head (fold_left add_class results found)
    = match found with
      | [] => head (omap class_of results)
      | class :: _ => Some class
      end.
Proof.
  induction results as [|item results IH]; intros found; cbn [fold_left].
  - now destruct found.
  - rewrite IH. unfold add_class, class_of at 2. cbn [omap list_omap].
    destruct (colorMapping item) as [[color class]|]; cbn [option_map snd].
    + unfold Set_add. destruct found as [|c found]; [reflexivity|].
      now destruct (includes (c :: found) class).
    + reflexivity.
Qed.

End Classes.

(** X19. The classes a render reports are a set in the order of its
    growth: no class is listed twice, each is 'TRAFFIC LIGHT' or 'VEHICLE',
    so there are two at most, and the first one listed is the class of the
    first result whose label has a class. *)
Theorem active_classes_set {JS : Number} (results : list SegmentedClass)
    (video : HTMLVideoElement) (cropPercent : num) (w : World)
    (canvas : OverlayCanvas) :
  overlayCanvasRef w = Some canvas ->
  truthy (videoWidth video) = true ->
  truthy (videoHeight video) = true ->
  NoDup (activeClasses (renderSegmentationOverlay results video cropPercent w))
  /\ Forall (fun class => class = "TRAFFIC LIGHT"%string \/ class = "VEHICLE"%string)
       (activeClasses (renderSegmentationOverlay results video cropPercent w))
  /\ (length (activeClasses (renderSegmentationOverlay results video cropPercent w))
      <= 2)%nat
  /\ head (activeClasses (renderSegmentationOverlay results video cropPercent w))
     = head (omap class_of results).
Proof.
  intros Hc Hw Hh.
  rewrite (activeClasses_render results video cropPercent w canvas Hc Hw Hh).
  assert (Hnodup : NoDup (fold_left add_class results []))
    by (apply fold_add_class_NoDup; constructor).
  assert (Hall : Forall (fun class => class = "TRAFFIC LIGHT"%string
                                      \/ class = "VEHICLE"%string)
                   (fold_left add_class results [])).
  { apply Forall_forall. intros class Hin.
    apply list_elem_of_In, fold_add_class in Hin as [[] | (item & color & _ & Hmap)].
    destruct (colorMapping_cases item) as [H | [H | H]]; rewrite H in Hmap;
      [left | right | discriminate]; congruence. }
  split; [exact Hnodup|]. split; [exact Hall|]. split.
  - change 2%nat with (length ["TRAFFIC LIGHT"; "VEHICLE"]%string).
    apply NoDup_incl_length; [now apply NoDup_ListNoDup|].
    intros class Hin. rewrite Forall_forall in Hall.
    destruct (Hall class) as [-> | ->]; [now apply list_elem_of_In | now left |].
    right. now left.
  - apply (fold_add_class_head results []).
Qed.

(** A car, a pedestrian, a traffic light and a bus: VEHICLE, then
    TRAFFIC LIGHT. *)
Lemma active_classes_set_witness :
  let video := example_video (JS := Binary64.number) (of_Z 1) (of_Z 0) false in
  let w := renderSegmentationOverlay
             [example_item "car"; example_item "pedestrian";
              example_item "Traffic Light"; example_item "Bus"] video
             CROP_PERCENT (example_world video) in
  NoDup (activeClasses w) /\ head (activeClasses w) = Some "VEHICLE"%string.
Proof.
  intros video w.
  destruct (active_classes_set
              [example_item "car"; example_item "pedestrian";
               example_item "Traffic Light"; example_item "Bus"] video
              CROP_PERCENT (example_world video)
              {| overlay_width := of_Z 300; overlay_height := of_Z 150; drawn := [] |}
              eq_refl eq_refl eq_refl) as (Hnodup & _ & _ & Hhead).
  split; [exact Hnodup | exact Hhead].
Defined.

(** ** The state of a pass, turn by turn *)

Section Turns.

Context {JS : Number}.
Variable predict : num -> option (list SegmentedClass).
Variables effectiveDuration steps cropY vw cropHeight segHeight : num.

Local Abbreviation steps_from n k := (sampling_steps predict n k effectiveDuration steps
                                    cropY vw cropHeight segHeight).




End Turns.



(** ** A pass in any arithmetic *)

Section AnyArithmetic.

Context {JS : Number}.
Variable predict : num -> option (list SegmentedClass).
Variables effectiveDuration steps cropY vw cropHeight segHeight : num.

Local Abbreviation limit := (add effectiveDuration (decimal 1 1)).

(** A loop that ends has made a turn for each sampling time up to the
    first one over the limit, and for no other. *)
Lemma sampling_loop_turns (fuel : nat) :
  forall (k : nat) (w w' : World),
    sampling_loop predict fuel effectiveDuration steps cropY vw cropHeight segHeight
      (sample_time k) (frame_count k) w = Some w' ->
    exists n : nat,
      w' = sampling_steps predict n k effectiveDuration steps cropY vw cropHeight
             segHeight w
      /\ (n < fuel)%nat
      /\ (forall i : nat, (k <= i < k + n)%nat -> leb (sample_time i) limit = true)
      /\ leb (sample_time (k + n)) limit = false.
Proof.
  induction fuel as [|fuel IH]; intros k w w' Hrun; cbn [sampling_loop] in Hrun;
    [discriminate|].
  destruct (leb (sample_time k) limit) eqn:Hturn.
  - change (sampling_step predict effectiveDuration steps cropY vw cropHeight segHeight
              (sample_time k) (frame_count k) w)
      with (sample_time (S k), frame_count (S k),
            snd (sampling_step predict effectiveDuration steps cropY vw cropHeight
                   segHeight (sample_time k) (frame_count k) w)) in Hrun.
    cbn iota in Hrun. destruct (IH _ _ _ Hrun) as (n & -> & Hn & Hin & Hout).
    exists (S n). split; [reflexivity|]. split; [lia|]. split.
    + intros i Hi. destruct (Nat.eq_dec i k) as [-> | Hne]; [exact Hturn|].
      apply Hin. lia.
    + now replace (k + S n)%nat with (S k + n)%nat by lia.
  - injection Hrun as <-. exists 0%nat. split; [reflexivity|]. split; [lia|].
    split; [intros i Hi; lia|]. now rewrite Nat.add_0_r.
Qed.

End AnyArithmetic.

(** X21. A pass in any arithmetic, binary64 included. If a pass on a
    video with a duration returns, it has made a turn for each of the
    sampling times 0, interval, interval + interval, ... up to the first one
    that is not at most the effective duration plus 0.1, and for no other
    time; it leaves the state complete, the frames of these times whose
    prediction succeeded in the cache, in their order, and one report of
    progress for each turn. It returns the same with any fuel that is
    enough for its turns. *)
Theorem pass_in_any_arithmetic {JS : Number}
    (predict : num -> option (list SegmentedClass)) (fuel : nat)
    (closure_isPlaying play_resolves : bool)
    (w w' : World) (video : HTMLVideoElement) :
  visibleVideoRef w = Some video ->
  truthy (duration video) = true ->
  startAnalysis predict fuel closure_isPlaying play_resolves w = Some w' ->
  exists n : nat,
    (n < fuel)%nat
    /\ (forall i : nat, (i < n)%nat ->
          leb (sample_time i)
            (add (Math_min (duration video) MAX_DEMO_DURATION) (decimal 1 1)) = true)
    /\ leb (sample_time n)
         (add (Math_min (duration video) MAX_DEMO_DURATION) (decimal 1 1)) = false
    /\ captures (trace w') = captures (trace w) ++ map sample_time (seq 0 n)
    /\ cacheRef w' = omap (frame_at predict) (map sample_time (seq 0 n))
    /\ length (progress_reports (trace w'))
       = (length (progress_reports (trace w)) + n)%nat
    /\ analysisStatus w' = complete
    /\ forall fuel' : nat, (n < fuel')%nat ->
         startAnalysis predict fuel' closure_isPlaying play_resolves w = Some w'.
Proof.
  intros Hv Hd Hrun. unfold startAnalysis in Hrun |- *.
  rewrite Hv, Hd in Hrun |- *. cbn [negb] in Hrun |- *.
  fold (analysis_start w) in Hrun |- *.
  destruct (sampling_loop _ _ _ _ _ _ _ _ _ _ _) as [w1|] eqn:Hloop; [|discriminate].
  injection Hrun as <-.
  apply (sampling_loop_turns _ _ _ _ _ _ _ _ 0%nat) in Hloop
    as (n & -> & Hn & Hin & Hout).
  exists n. split; [exact Hn|]. split; [intros i Hi; apply Hin; lia|].
  split; [exact Hout|].
  match goal with
  | |- context [togglePlay _ _ (seek _ (setAnalysisStatus complete ?w1))] =>
      change (togglePlay closure_isPlaying play_resolves
                (seek (of_Z 0) (setAnalysisStatus complete w1)))
        with (analysis_end closure_isPlaying play_resolves w1);
      destruct (analysis_end_extends closure_isPlaying play_resolves w1)
        as (Hend & Hcache & Hstatus)
  end.
  destruct (analysis_start_extends w) as (Hstart & Hcache0 & _).
  split; [|split; [|split; [|split]]].
  - now rewrite (extends_captures _ _ Hend), captures_sampling_steps,
      (extends_captures _ _ Hstart).
  - now rewrite Hcache, cacheRef_sampling_steps, Hcache0.
  - rewrite (extends_progress _ _ Hend), progress_sampling_steps,
      (extends_progress _ _ Hstart).
    now rewrite length_app, length_map, length_seq.
  - exact Hstatus.
  - intros fuel' Hfuel'.
    now rewrite (sampling_loop_steps _ _ _ _ _ _ _ n fuel' 0%nat (analysis_start w)
                   Hin Hout Hfuel').
Qed.

(** The pass on an example video of 1 s. *)
Lemma pass_in_any_arithmetic_witness :
  exists (w' : World) (n : nat),
    startAnalysis (JS := Exact.number) (fun _ => Some []) 77 false true
      (example_world (example_video (fin 1) (fin 0) true)) = Some w'
    /\ captures (trace w') = map sample_time (seq 0 n)
    /\ analysisStatus w' = complete.
Proof.
  destruct (ExactAnalysis.analysis_pass (fun _ => Some []) 77 false true
              (example_world (example_video (fin 1) (fin 0) true))
              (example_video (fin 1) (fin 0) true) 1%Q eq_refl eq_refl
              eq_refl (Nat.le_refl 77))
    as (w' & _ & Hrun & _).
  destruct (pass_in_any_arithmetic (fun _ => Some []) 77 false true
              (example_world (example_video (fin 1) (fin 0) true)) w'
              (example_video (fin 1) (fin 0) true) eq_refl eq_refl Hrun)
    as (n & _ & _ & _ & Hcaptures & _ & _ & Hstatus & _).
  exists w', n. split; [exact Hrun|]. split; [exact Hcaptures | exact Hstatus].
Defined.
